(** * spot-rl-example: the control-loop coordination layer, embedded in Rocq

    A shallow embedding of the Python sources

    - [utils/dict_tools.py]      (joint reordering helpers),
    - [utils/event_divider.py]   (the rate divider),
    - [hid/gamepad.py]           (the per-axis joystick curve),
    - [orbit/observations.py], [orbit/orbit_configuration.py] and
      [orbit/onnx_command_generator.py] (observation vector, training
      configuration and command synthesis),
    - [spot/spot.py]             (the generator behind the command stream),

    followed by the properties of the specification that concern them.

    Conventions.  Python floats are read as exact rationals ([Q]); results
    that Python compares numerically are compared with [==] ([Qeq]).  The
    module [binary64] repeats the two scalar formulas on IEEE doubles, to
    evaluate the scenarios of the specification as Python does.  Python
    exceptions are values of [Py.exn] carried by the [Py.result] monad.
    Objects mutated in place ([OnnxCommandGenerator], the controller context)
    are passed explicitly: a call returns the new object next to its result,
    also when it raises. *)

From Stdlib Require Import ZArith QArith Qabs Qminmax Lqa Lia PrimFloat.
From Stdlib Require Uint63.
From stdpp Require Import base option list strings gmap.
From stdpp Require Import sorting.

Open Scope Z_scope.

Set Warnings "-register-all,-inexact-float".

(** * A thin layer of Python semantics *)

Module Py.

(** The exceptions the embedded code can raise. *)
Inductive exn : Set :=
| KeyError | IndexError | ValueError | TypeError | AttributeError | ReError.

Inductive result (A : Type) : Type :=
| Ok (a : A)
| Raise (e : exn).
Arguments Ok {A} a.
Arguments Raise {A} e.

#[export] Instance result_ret : MRet result := λ A a, Ok a.
#[export] Instance result_bind : MBind result := λ A B f m,
  match m with Ok a => f a | Raise e => Raise e end.
#[export] Instance result_fmap : FMap result := λ A B f m,
  match m with Ok a => Ok (f a) | Raise e => Raise e end.

Definition is_ok {A} (r : result A) : bool :=
  match r with Ok _ => true | Raise _ => false end.

Definition raises {A} (r : result A) : Prop := ∃ e, r = Raise e.

(** [from_option e o]: the value of [o], or exception [e]. *)
Definition from_option {A} (e : exn) (o : option A) : result A :=
  match o with Some a => Ok a | None => Raise e end.

(** [l[i]] for a Python list: indices [-len(l) .. len(l)-1] are valid,
    negative ones count from the end, anything else is an [IndexError]. *)
Definition getitem {A} (l : list A) (i : Z) : result A :=
  if 0 <=? i then from_option IndexError (l !! Z.to_nat i)
  else if - Z.of_nat (length l) <=? i
       then from_option IndexError (l !! Z.to_nat (Z.of_nat (length l) + i))
       else Raise IndexError.

(** Position of the first element equal to [x]. *)
Fixpoint first_index `{EqDecision A} (l : list A) (x : A) : option nat :=
  match l with
  | [] => None
  | y :: l' => if decide (y = x) then Some 0%nat else S <$> first_index l' x
  end.

(** [l.index(x)]: first position of [x], [ValueError] when absent. *)
Definition index `{EqDecision A} (l : list A) (x : A) : result Z :=
  from_option ValueError (Z.of_nat <$> first_index l x).

(** [list(map(f, l1, l2))] with a fallible [f]: stops at the shorter list and
    raises at the first pair on which [f] raises. *)
Fixpoint map2 {A B C} (f : A → B → result C) (l1 : list A) (l2 : list B)
  : result (list C) :=
  match l1, l2 with
  | a :: l1', b :: l2' => c ← f a b; cs ← map2 f l1' l2'; mret (c :: cs)
  | _, _ => mret []
  end.

(** [for x in l: acc = f(acc, x)] with a fallible body. *)
Fixpoint foldM {A B} (f : A → B → result A) (acc : A) (l : list B) : result A :=
  match l with
  | [] => mret acc
  | x :: l' => acc' ← f acc x; foldM f acc' l'
  end.

(** [range(n)] *)
Definition range (n : nat) : list Z := Z.of_nat <$> seq 0 n.

(** What [json.load] returns.  [JNull] is Python's [None]; an object is a
    [dict], kept as its items in insertion order (keys are unique). *)
Inductive json : Type :=
| JNull
| JBool (b : bool)
| JNum (q : Q)
| JStr (s : string)
| JArr (l : list json)
| JObj (items : list (string * json)).

(** First item stored under [key]. *)
Fixpoint assoc (key : string) (items : list (string * json)) : option json :=
  match items with
  | [] => None
  | (k, v) :: items' => if decide (k = key) then Some v else assoc key items'
  end.

(** [v[key]] for a string key: [KeyError] on a dict without the key,
    [TypeError] on anything that is not a dict. *)
Definition getitem_key (v : json) (key : string) : result json :=
  match v with
  | JObj items => from_option KeyError (assoc key items)
  | _ => Raise TypeError
  end.

(** [v[i]] for an integer [i]: list and string indexing; a decoded JSON
    object has string keys only, so an integer is a [KeyError] there. *)
Definition getitem_pos (v : json) (i : Z) : result json :=
  match v with
  | JArr l => getitem l i
  | JStr s => c ← getitem (String.list_ascii_of_string s) i; mret (JStr (String c EmptyString))
  | JObj _ => Raise KeyError
  | _ => Raise TypeError
  end.

(** [v.keys()] *)
Definition keys (v : json) : result (list string) :=
  match v with
  | JObj items => Ok (items.*1)
  | _ => Raise AttributeError
  end.

(** The number a value stands for in float arithmetic ([bool] is an [int]);
    [None], strings, lists and dicts are a [TypeError] there. *)
Definition as_float (v : json) : result Q :=
  match v with
  | JNum q => Ok q
  | JBool b => Ok (if b then 1%Q else 0%Q)
  | _ => Raise TypeError
  end.

(** The same for the result of [dict.get], where a missing key is [None]. *)
Definition get_as_float (v : option json) : result Q :=
  match v with
  | Some v => as_float v
  | None => Raise TypeError
  end.

End Py.

Import Py.

(** * utils/dict_tools.py *)

Module dict_tools.

(** [dict(zip(keys, values))]: later pairs overwrite earlier ones. *)
Definition dict_from_lists {V} (keys : list string) (values : list V)
  : gmap string V :=
  foldl (λ d kv, <[kv.1 := kv.2]> d) ∅ (zip keys values).

(** [[data.get(key) for key in keys]]: a missing key reads as [None]. *)
Definition dict_to_list {V} (data : gmap string V) (keys : list string)
  : list (option V) :=
  (λ key, data !! key) <$> keys.

(** Every key the regex matches is set to [value]; the key set is unchanged. *)
Definition set_matching {V} (data : gmap string V) (regex : string → bool)
    (value : V) : gmap string V :=
  map_imap (λ key old, Some (if regex key then value else old)) data.

(** [[inputs[i] for i in ordering]] *)
Definition reorder {A} (inputs : list A) (ordering : list Z) : result (list A) :=
  mapM (getitem inputs) ordering.

(** [[input.index(key) for key in output]] *)
Definition find_ordering `{EqDecision A} (input output : list A)
  : result (list Z) :=
  mapM (index input) output.

(** Reordering by [find_ordering(A, B)] and then by [find_ordering(B, A)]. *)
Definition round_trip `{EqDecision K} {V} (A B : list K) (L : list V)
  : result (list V) :=
  there ← find_ordering A B;
  moved ← reorder L there;
  back ← find_ordering B A;
  reorder moved back.

End dict_tools.

Import dict_tools.

(** * utils/event_divider.py *)

Module event_divider.

(** What one call of the divider does to its [threading.Event], in order.
    [Wait t b] is [event.wait(t)] returning [b]: [true] when the flag was set
    within [t] seconds, [false] on a timeout. *)
Inductive action : Type :=
| Wait (timeout : Q) (signalled : bool)
| Clear
| Sleep (seconds : Q).

Record EventDivider : Type := { _factor : Z }.

(** The other threads decide when the flag is raised.  Towards the divider
    they are an oracle: [signals k] tells whether the [k]-th wait of this call
    (counted from 0) sees the flag within its window. *)
Definition oracle : Type := nat → bool.

(** The [while count < self._factor] loop.  [fuel] bounds the number of
    iterations, [waits] counts the waits made so far and [trace] records the
    actions already performed; [None] means the fuel ran out. *)
Fixpoint loop (fuel : nat) (self : EventDivider) (signals : oracle)
    (count : Z) (waits : nat) (trace : list action)
  : option (bool * list action) :=
  match fuel with
  | O => None
  | S fuel' =>
      if count <? _factor self then
        if signals waits then
          loop fuel' self signals (count + 1) (S waits)
               (trace ++ [Wait 1 true; Clear; Sleep 0.001])
        else Some (false, trace ++ [Wait 1 false])
      else Some (true, trace)
  end.

(** [EventDivider.__call__], with the loop's iteration bound left open. *)
Definition __call__ (fuel : nat) (self : EventDivider) (signals : oracle)
  : option (bool * list action) :=
  loop fuel self signals 0 0%nat [].

(** One successful round of the loop. *)
Definition tick : list action := [Wait 1 true; Clear; Sleep 0.001].

(** [n] successful rounds in a row. *)
Definition ticks (n : nat) : list action := mjoin (replicate n tick).

(** The first wait among [from, from+1, .., from+n-1] that times out. *)
Fixpoint first_timeout (signals : oracle) (from n : nat) : option nat :=
  match n with
  | O => None
  | S n' => if signals from then first_timeout signals (S from) n' else Some from
  end.

End event_divider.

(** * hid/gamepad.py *)

Module gamepad.

#[local] Open Scope Q_scope.

Record AxisConfig : Type := {
  index : Z;               (* pygame axis index to control this axis *)
  inverted : bool;         (* true if the pygame axis input should be inverted *)
  deadband : Q;            (* percentage of joystick travel that should return zero *)
  min_forward_dir : Q;     (* output magnitude at the forward edge of the deadband *)
  max_forward_dir : Q;     (* output magnitude when fully forward *)
  min_reverse_dir : Q;     (* output magnitude at the reverse edge of the deadband *)
  max_reverse_dir : Q      (* output magnitude when fully reversed *)
}.

(** Default axes of [GamepadConfig] (PS4 controller). *)
Definition x_axis_config : AxisConfig := Build_AxisConfig 1 true 0.2 0.25 1 0.25 1.
Definition y_axis_config : AxisConfig := Build_AxisConfig 0 true 0.2 0.25 1 0.25 1.
Definition yaw_axis_config : AxisConfig := Build_AxisConfig 3 true 0.2 0.0 1 0.0 1.

Definition interpolate (start end_ percent : Q) : Q :=
  start + percent * (end_ - start).

(** [np.clip(a, a_min, a_max)], that is [minimum(a_max, maximum(a, a_min))]. *)
Definition clip (a a_min a_max : Q) : Q := Qmin a_max (Qmax a a_min).

Definition _apply_curve (value : Q) (cfg : AxisConfig) : Q :=
  let value := if inverted cfg then - value else value in
  if Qlt_le_dec (Qabs value) (deadband cfg) then 0
  else if Qlt_le_dec 0 value then
    let slope := (max_forward_dir cfg - min_forward_dir cfg) / (1 - deadband cfg) in
    let shift := max_forward_dir cfg - slope in
    let value := slope * value + shift in
    clip value (min_forward_dir cfg) (max_forward_dir cfg)
  else
    let slope := (max_reverse_dir cfg - min_reverse_dir cfg) / (1 - deadband cfg) in
    let shift := max_reverse_dir cfg - slope in
    let value := slope * value + shift in
    clip value (- max_reverse_dir cfg) (- min_reverse_dir cfg).

(** The sample the curve works on, after the optional inversion. *)
Definition oriented (value : Q) (cfg : AxisConfig) : Q :=
  if inverted cfg then - value else value.

(** The forward remap as the specification words it: [[deadband, 1]] is
    mapped linearly onto [[min_forward, max_forward]]. *)
Definition forward_remap (x : Q) (cfg : AxisConfig) : Q :=
  min_forward_dir cfg
  + (x - deadband cfg) / (1 - deadband cfg)
    * (max_forward_dir cfg - min_forward_dir cfg).

(** The mirror image of [forward_remap] for the reverse direction, as the
    specification words it. *)
Definition reverse_mirror (x : Q) (cfg : AxisConfig) : Q :=
  - (min_reverse_dir cfg
     + (Qabs x - deadband cfg) / (1 - deadband cfg)
       * (max_reverse_dir cfg - min_reverse_dir cfg)).

(** ** The median filter and the polling loop *)

#[export] Instance Qle_decision (a b : Q) : Decision (a <= b).
Proof.
  destruct (Qlt_le_dec b a) as [H|H]; [right | left; exact H].
  intros H'. exact (Qlt_not_le _ _ H H').
Defined.

#[export] Instance Qeq_decision (a b : Q) : Decision (a == b) := Qeq_dec a b.

(** [numpy.median] of a sequence: the middle value of a sorted copy for an
    odd length, the mean of the two middle values for an even one.  [None]
    stands for the NaN numpy answers on an empty sequence. *)
Definition median (values : list Q) : option Q :=
  let sorted := merge_sort Qle values in
  let n := length values in
  if decide (n = 0%nat) then None
  else if Nat.odd n then sorted !! (n / 2)%nat
  else
    lo ← sorted !! (n / 2 - 1)%nat;
    hi ← sorted !! (n / 2)%nat;
    Some ((lo + hi) / 2).

(** [buffer.append(x)] on a [deque] with the given [maxlen]: a full deque
    drops its oldest element, one of [maxlen] 0 stays empty. *)
Definition deque_append {A} (maxlen : nat) (buffer : list A) (x : A) : list A :=
  if decide (length buffer < maxlen)%nat then buffer ++ [x]
  else drop 1 (buffer ++ [x]).

(** dataclass holding gamepad configuration data *)
Record GamepadConfig : Type := {
  x_axis : AxisConfig;            (* x_axis_config *)
  y_axis : AxisConfig;            (* y_axis_config *)
  yaw_axis : AxisConfig;          (* yaw_axis_config *)
  median_filter_window : Z        (* size of buffer used for filtering *)
}.

(** The default [GamepadConfig()]. *)
Definition default_config : GamepadConfig :=
  {| x_axis := x_axis_config; y_axis := y_axis_config;
     yaw_axis := yaw_axis_config; median_filter_window := 10 |}.

(** The members of [Gamepad] the polling loop works on.  The three filtered
    outputs are [None] where numpy gives NaN. *)
Record Gamepad : Type := {
  x_vel : option Q;
  y_vel : option Q;
  yaw : option Q;
  _config : GamepadConfig;
  _x_buffer : list Q;
  _y_buffer : list Q;
  _yaw_buffer : list Q
}.

(** [Gamepad.__init__]: outputs at 0, buffers full of zeros.  A negative
    window makes [deque([0] * n, n)] raise a [ValueError]. *)
Definition __init__ (config : GamepadConfig) : Py.result Gamepad :=
  let buffer_length := median_filter_window config in
  if (buffer_length <? 0)%Z then Py.Raise Py.ValueError
  else
    Py.Ok
      {| x_vel := Some 0; y_vel := Some 0; yaw := Some 0; _config := config;
         _x_buffer := replicate (Z.to_nat buffer_length) 0;
         _y_buffer := replicate (Z.to_nat buffer_length) 0;
         _yaw_buffer := replicate (Z.to_nat buffer_length) 0 |}.

(** One pass of the [while] loop of [Gamepad.listen]. [get_axis i] is what
    the joystick reads on axis [i] in this pass.  The result holds the
    gamepad as the pass leaves it; its three outputs are what the pass writes
    to [velocity_cmd] of the context. *)
Definition listen_pass (get_axis : Z → Q) (self : Gamepad) : Gamepad :=
  let config := _config self in
  let maxlen := Z.to_nat (median_filter_window config) in
  let x_input := get_axis (index (x_axis config)) in
  let y_input := get_axis (index (y_axis config)) in
  let yaw_input := get_axis (index (yaw_axis config)) in
  let x_vel := _apply_curve x_input (x_axis config) in
  let y_vel := _apply_curve y_input (y_axis config) in
  let yaw := _apply_curve yaw_input (yaw_axis config) in
  let x_buffer := deque_append maxlen (_x_buffer self) x_vel in
  let y_buffer := deque_append maxlen (_y_buffer self) y_vel in
  let yaw_buffer := deque_append maxlen (_yaw_buffer self) yaw in
  {| x_vel := median x_buffer; y_vel := median y_buffer;
     yaw := median yaw_buffer; _config := config;
     _x_buffer := x_buffer; _y_buffer := y_buffer;
     _yaw_buffer := yaw_buffer |}.

(** The loop of [Gamepad.listen] over the joystick readings of consecutive
    passes, until the stop flag ends it. *)
Definition listen (readings : list (Z → Q)) (self : Gamepad) : Gamepad :=
  foldl (λ self get_axis, listen_pass get_axis self) self readings.

(** [self._context.velocity_cmd] as the last pass wrote it. *)
Definition velocity_cmd (self : Gamepad) : list (option Q) :=
  [x_vel self; y_vel self; yaw self].

(** The three buffers hold as many samples as the window says. *)
Definition buffers_full (self : Gamepad) : Prop :=
  let n := Z.to_nat (median_filter_window (_config self)) in
  length (_x_buffer self) = n ∧ length (_y_buffer self) = n
  ∧ length (_yaw_buffer self) = n.

(** How many of the values equal [v]. *)
Definition occurrences (v : Q) (values : list Q) : nat :=
  length (filter (λ q, q == v) values).

(** ** Loading the gamepad configuration *)

(** [AxisConfig] and [GamepadConfig] as [load_gamepad_configuration] fills
    them: with the values of the JSON document, whatever their types. *)
Record LoadedAxisConfig : Type := {
  loaded_index : Py.json;
  loaded_inverted : Py.json;
  loaded_deadband : Py.json;
  loaded_min_forward_dir : Py.json;
  loaded_max_forward_dir : Py.json;
  loaded_min_reverse_dir : Py.json;
  loaded_max_reverse_dir : Py.json
}.

Record LoadedGamepadConfig : Type := {
  loaded_x_axis_config : LoadedAxisConfig;
  loaded_y_axis_config : LoadedAxisConfig;
  loaded_yaw_axis_config : LoadedAxisConfig;
  loaded_median_filter_window : Py.json
}.

(** [d[key1][key2]] *)
Definition getitem2 (d : Py.json) (key1 key2 : string) : Py.result Py.json :=
  v ← Py.getitem_key d key1; Py.getitem_key v key2.

(** [load_gamepad_configuration], from the decoded JSON document on. *)
Definition load_gamepad_configuration (config_file : Py.json)
  : Py.result LoadedGamepadConfig :=
  axis_mapping ← Py.getitem_key config_file "axis_mapping";
  filter ← Py.getitem_key config_file "median_filter";
  (* forward_backward *)
  index1 ← getitem2 axis_mapping "forward_backward" "index";
  inverted1 ← getitem2 axis_mapping "forward_backward" "inverted";
  deadband1 ← Py.getitem_key config_file "deadband";
  min_forward1 ← getitem2 config_file "forward" "min_velocity";
  max_forward1 ← getitem2 config_file "forward" "max_velocity";
  min_reverse1 ← getitem2 config_file "backward" "min_velocity";
  max_reverse1 ← getitem2 config_file "backward" "max_velocity";
  let forward_backward :=
    Build_LoadedAxisConfig index1 inverted1 deadband1 min_forward1
      max_forward1 min_reverse1 max_reverse1 in
  (* lateral *)
  index2 ← getitem2 axis_mapping "lateral" "index";
  inverted2 ← getitem2 axis_mapping "lateral" "inverted";
  deadband2 ← Py.getitem_key config_file "deadband";
  min_forward2 ← getitem2 config_file "lateral" "min_velocity";
  max_forward2 ← getitem2 config_file "lateral" "max_velocity";
  min_reverse2 ← getitem2 config_file "lateral" "min_velocity";
  max_reverse2 ← getitem2 config_file "lateral" "max_velocity";
  let lateral :=
    Build_LoadedAxisConfig index2 inverted2 deadband2 min_forward2
      max_forward2 min_reverse2 max_reverse2 in
  (* yaw *)
  index3 ← getitem2 axis_mapping "yaw" "index";
  inverted3 ← getitem2 axis_mapping "yaw" "inverted";
  deadband3 ← Py.getitem_key config_file "deadband";
  min_forward3 ← getitem2 config_file "yaw" "min_velocity";
  max_forward3 ← getitem2 config_file "yaw" "max_velocity";
  min_reverse3 ← getitem2 config_file "yaw" "min_velocity";
  max_reverse3 ← getitem2 config_file "yaw" "max_velocity";
  let yaw :=
    Build_LoadedAxisConfig index3 inverted3 deadband3 min_forward3
      max_forward3 min_reverse3 max_reverse3 in
  window_size ← Py.getitem_key filter "window_size";
  mret {| loaded_x_axis_config := forward_backward;
          loaded_y_axis_config := lateral;
          loaded_yaw_axis_config := yaw;
          loaded_median_filter_window := window_size |}.

End gamepad.

(** * The scalar formulas on IEEE doubles *)

Module binary64.

#[local] Open Scope float_scope.

(** [np.clip] and Python's [min] on doubles. *)
Definition maximum (a b : float) : float := if ltb a b then b else a.
Definition minimum (a b : float) : float := if ltb b a then b else a.
Definition clip (a a_min a_max : float) : float :=
  minimum a_max (maximum a a_min).

(** [Gamepad._apply_curve], the members of [cfg] passed one by one. *)
Definition _apply_curve (value : float) (inverted : bool)
    (deadband min_forward_dir max_forward_dir min_reverse_dir
     max_reverse_dir : float) : float :=
  let value := if inverted then - value else value in
  if ltb (abs value) deadband then 0
  else if ltb 0 value then
    let slope := (max_forward_dir - min_forward_dir) / (1 - deadband) in
    let shift := max_forward_dir - slope in
    let value := slope * value + shift in
    clip value min_forward_dir max_forward_dir
  else
    let slope := (max_reverse_dir - min_reverse_dir) / (1 - deadband) in
    let shift := max_reverse_dir - slope in
    let value := slope * value + shift in
    clip value (- max_reverse_dir) (- min_reverse_dir).

(** [min(0.1 * self._count, 1)], for a count below 2^53, which converts to
    a double exactly. *)
Definition test_scale (count : Z) : float :=
  minimum (0.1 * of_uint63 (Uint63.of_Z count)) 1.

End binary64.


(** * orbit/orbit_constants.py *)

Module orbit_constants.

#[local] Open Scope string_scope.

(** spots base joints in order expected/used by orbit libraries *)
Definition ordered_joint_names_orbit : list string :=
  [ "fl_hx"; "fr_hx"; "hl_hx"; "hr_hx";
    "fl_hy"; "fr_hy"; "hl_hy"; "hr_hy";
    "fl_kn"; "fr_kn"; "hl_kn"; "hr_kn" ].

End orbit_constants.

Import orbit_constants.

(** * orbit/orbit_configuration.py *)

Module orbit_configuration.

#[local] Open Scope string_scope.

(** dataclass holding data extracted from orbits training configuration.
    The three per-joint members are the dicts [load_configuration] builds. *)
Record OrbitConfig : Type := {
  kp : gmap string json;
  kd : gmap string json;
  default_joints : gmap string json;
  standing_height : json;
  action_scale : json
}.

Section load.

(** Python's [re] module: [re_compile pattern] is [None] when the pattern is
    rejected ([re.error]), and otherwise the predicate [regex.match(key)] of
    the compiled pattern. *)
Context (re_compile : string → option (string → bool)).

(** [re.compile(v)] for a decoded JSON value: only strings are patterns. *)
Definition compile (v : json) : result (string → bool) :=
  match v with
  | JStr pattern => from_option ReError (re_compile pattern)
  | _ => Raise TypeError
  end.

(** Body of [for group in actuators.keys()]. *)
Definition load_group (actuators : json)
    (acc : gmap string json * gmap string json) (group : string)
  : result (gmap string json * gmap string json) :=
  g ← getitem_key actuators group;
  exprs ← getitem_key g "joint_names_expr";
  expr ← getitem_pos exprs 0;
  regex ← compile expr;
  stiffness ← getitem_key g "stiffness";
  let joint_kp := set_matching acc.1 regex stiffness in
  damping ← getitem_key g "damping";
  let joint_kd := set_matching acc.2 regex damping in
  mret (joint_kp, joint_kd).

(** Body of [for expression in default_joint_expressions]. *)
Definition load_offset (default_joint_data : json)
    (joint_offsets : gmap string json) (expression : string)
  : result (gmap string json) :=
  regex ← compile (JStr expression);
  value ← getitem_key default_joint_data expression;
  mret (set_matching joint_offsets regex value).

(** The three dicts start with a [None] placeholder per orbit joint. *)
Definition placeholders : gmap string json :=
  dict_from_lists ordered_joint_names_orbit (replicate 12 JNull).

(** [load_configuration], from the decoded JSON document on. *)
Definition load_configuration (env_config : json) : result OrbitConfig :=
  let joint_kp := placeholders in
  let joint_kd := placeholders in
  let joint_offsets := placeholders in
  scene ← getitem_key env_config "scene";
  robot ← getitem_key scene "robot";
  actuators ← getitem_key robot "actuators";
  groups ← keys actuators;
  gains ← foldM (load_group actuators) (joint_kp, joint_kd) groups;
  init_state ← getitem_key robot "init_state";
  default_joint_data ← getitem_key init_state "joint_pos";
  default_joint_expressions ← keys default_joint_data;
  joint_offsets ←
    foldM (load_offset default_joint_data) joint_offsets default_joint_expressions;
  actions ← getitem_key env_config "actions";
  joint_pos ← getitem_key actions "joint_pos";
  action_scale ← getitem_key joint_pos "scale";
  pos ← getitem_key init_state "pos";
  standing_height ← getitem_pos pos 2;
  mret {| kp := gains.1; kd := gains.2; default_joints := joint_offsets;
          standing_height := standing_height; action_scale := action_scale |}.

(** A joint that the first pattern of no actuator group matches. *)
Definition unmatched (actuators : json) (joint : string) : Prop :=
  ∀ group g exprs pattern regex,
    getitem_key actuators group = Ok g →
    getitem_key g "joint_names_expr" = Ok exprs →
    getitem_pos exprs 0 = Ok (JStr pattern) →
    re_compile pattern = Some regex →
    regex joint = false.

(** The actuator groups of a document. *)
Definition actuators_of (env_config : json) : result json :=
  scene ← getitem_key env_config "scene";
  robot ← getitem_key scene "robot";
  getitem_key robot "actuators".

(** An actuator group with the three entries the loader reads. *)
Definition group_keyed (actuators : json) (group : string) : Prop :=
  ∃ g, getitem_key actuators group = Ok g
       ∧ is_ok (getitem_key g "joint_names_expr")
       ∧ is_ok (getitem_key g "stiffness")
       ∧ is_ok (getitem_key g "damping").

(** A document with every key the loader reads. *)
Definition well_keyed (env_config : json) : Prop :=
  ∃ scene robot actuators groups init_state joint_pos actions
    action_joint_pos scale pos,
    getitem_key env_config "scene" = Ok scene
    ∧ getitem_key scene "robot" = Ok robot
    ∧ getitem_key robot "actuators" = Ok actuators
    ∧ keys actuators = Ok groups
    ∧ Forall (group_keyed actuators) groups
    ∧ getitem_key robot "init_state" = Ok init_state
    ∧ getitem_key init_state "joint_pos" = Ok joint_pos
    ∧ getitem_key env_config "actions" = Ok actions
    ∧ getitem_key actions "joint_pos" = Ok action_joint_pos
    ∧ getitem_key action_joint_pos "scale" = Ok scale
    ∧ getitem_key init_state "pos" = Ok pos.

(** The first pattern of [group] does not match [joint]. *)
Definition group_misses (actuators : json) (joint group : string) : Prop :=
  ∀ g exprs pattern regex,
    getitem_key actuators group = Ok g →
    getitem_key g "joint_names_expr" = Ok exprs →
    getitem_pos exprs 0 = Ok (JStr pattern) →
    re_compile pattern = Some regex →
    regex joint = false.

End load.

(** A matcher for patterns free of regex metacharacters: such a pattern
    compiles, and [regex.match(key)] holds exactly when the key starts with
    it.  The concrete configurations below use such patterns only. *)
Definition literal_re (pattern : string) : option (string → bool) :=
  Some (λ key, String.prefix pattern key).

End orbit_configuration.

Import orbit_configuration.

(** * The robot state message and spatialmath's unit quaternions *)

Module robot_state.

#[local] Open Scope Q_scope.

Record Vec3 : Type := { x : Q; y : Q; z : Q }.

Record Quaternion : Type := { qw : Q; qx : Q; qy : Q; qz : Q }.

Record KinematicState : Type := {
  velocity_linear : Vec3;    (* velocity_of_body_in_odom.linear *)
  velocity_angular : Vec3;   (* velocity_of_body_in_odom.angular *)
  rotation : Quaternion      (* odom_tform_body.rotation *)
}.

Record JointStates : Type := {
  position : list Q;
  velocity : list Q;
  load : list Q;
  acquisition_timestamp : Q  (* in seconds *)
}.

(** The fields of [RobotStateStreamResponse] the controller reads. *)
Record RobotStateStreamResponse : Type := {
  kinematic_state : KinematicState;
  joint_states : JointStates
}.

(** Hamilton product, conjugate and squared norm. *)
Definition qqmul (a b : Quaternion) : Quaternion :=
  {| qw := qw a * qw b - qx a * qx b - qy a * qy b - qz a * qz b;
     qx := qw a * qx b + qx a * qw b + qy a * qz b - qz a * qy b;
     qy := qw a * qy b - qx a * qz b + qy a * qw b + qz a * qx b;
     qz := qw a * qz b + qx a * qy b - qy a * qx b + qz a * qw b |}.

Definition qconj (a : Quaternion) : Quaternion :=
  {| qw := qw a; qx := - qx a; qy := - qy a; qz := - qz a |}.

Definition qpure (v : Vec3) : Quaternion :=
  {| qw := 0; qx := x v; qy := y v; qz := z v |}.

Definition qnorm2 (a : Quaternion) : Q :=
  qw a * qw a + qx a * qx a + qy a * qy a + qz a * qz a.

(** [(UnitQuaternion(s, v).inv() * u).tolist()] of the spatialmath package.
    The constructor divides the quaternion by its norm and refuses the zero
    quaternion with a [ValueError]; [inv] conjugates; the product with a
    3-vector rotates it.  In exact arithmetic the two divisions by the norm
    amount to one division by its square, which needs no square root. *)
Definition inv_rotate (q : Quaternion) (u : Vec3) : result (list Q) :=
  if Qeq_bool (qnorm2 q) 0 then Raise ValueError
  else
    let r := qqmul (qconj q) (qqmul (qpure u) q) in
    Ok [qx r / qnorm2 q; qy r / qnorm2 q; qz r / qnorm2 q].

(** The zero vector and the identity rotation, up to the representation of
    the numbers. *)
Definition zero3 (v : Vec3) : Prop := x v == 0 ∧ y v == 0 ∧ z v == 0.

Definition identity_rotation (q : Quaternion) : Prop :=
  qw q == 1 ∧ qx q == 0 ∧ qy q == 0 ∧ qz q == 0.

End robot_state.

Import robot_state.

(** * orbit/observations.py *)

Module observations.

#[local] Open Scope Q_scope.

Section bosdyn.

(** [spot.constants.ordered_joint_names_bosdyn]: the joint names in the
    order of the robot's messages.  The module [spot.constants] is not part
    of the sources at hand, so the list is a parameter. *)
Context (ordered_joint_names_bosdyn : list string).

Definition get_base_linear_velocity (state : RobotStateStreamResponse)
  : result (list Q) :=
  let msg := velocity_linear (kinematic_state state) in
  let odom_r_base := rotation (kinematic_state state) in
  inv_rotate odom_r_base msg.

Definition get_base_angular_velocity (state : RobotStateStreamResponse)
  : result (list Q) :=
  let msg := velocity_angular (kinematic_state state) in
  let odom_r_base := rotation (kinematic_state state) in
  inv_rotate odom_r_base msg.

Definition get_projected_gravity (state : RobotStateStreamResponse)
  : result (list Q) :=
  let odom_r_base := rotation (kinematic_state state) in
  let gravity_odom := {| x := 0; y := 0; z := -1 |} in
  inv_rotate odom_r_base gravity_odom.

(** [sub(p, d)] on a float and a configuration entry. *)
Definition sub (p : Q) (d : option json) : result Q :=
  d' ← get_as_float d; mret (p - d').

Definition get_joint_positions (state : RobotStateStreamResponse)
    (config : OrbitConfig) : result (list Q) :=
  spot_to_orbit ← find_ordering ordered_joint_names_bosdyn ordered_joint_names_orbit;
  pos ← reorder (position (joint_states state)) spot_to_orbit;
  let default_joints := dict_to_list (default_joints config) ordered_joint_names_orbit in
  map2 sub pos default_joints.

Definition get_joint_velocity (state : RobotStateStreamResponse)
  : result (list Q) :=
  spot_to_orbit ← find_ordering ordered_joint_names_bosdyn ordered_joint_names_orbit;
  reorder (velocity (joint_states state)) spot_to_orbit.

(** Joint [name] reads [p], the neutral offset the configuration gives it. *)
Definition at_neutral (config : OrbitConfig) (name : string) (p : Q) : Prop :=
  ∃ v d, default_joints config !! name = Some v ∧ as_float v = Ok d ∧ p == d.

End bosdyn.

End observations.

Import observations.

(** * orbit/onnx_command_generator.py *)

Module onnx_command_generator.

#[local] Open Scope Q_scope.

(** data class to hold runtime data needed by the controller (its [event]
    is the rate divider's business and lives there). *)
Record OnnxControllerContext : Type := {
  latest_state : option RobotStateStreamResponse;
  velocity_cmd : list Q;
  count : Z
}.

(** The context a session starts with. *)
Definition new_context : OnnxControllerContext :=
  {| latest_state := None; velocity_cmd := [0; 0; 0]; count := 0 |}.

(** The mutable members of the generator; its context and its inference
    session are passed to the methods. *)
Record OnnxCommandGenerator : Type := {
  _config : OrbitConfig;
  _last_action : list Q;
  _count : Z;
  _init_pos : option (list Q);
  _init_load : option (list Q);
  verbose : bool
}.

(** The fields of [JointControlStreamRequest] the generator fills in.  The
    repeated fields [k_q_p] and [k_qd_p] are empty when no gains are sent. *)
Record JointControlStreamRequest : Type := {
  request_timestamp : Q;
  client_name : string;
  k_q_p : list Q;
  k_qd_p : list Q;
  cmd_position : list Q;
  cmd_velocity : list Q;
  cmd_load : list Q;
  end_time : Q;
  extrapolation_duration_nanos : Z;
  user_command_key : Z
}.

Definition __init__ (config : OrbitConfig) (verbose : bool)
  : OnnxCommandGenerator :=
  {| _config := config; _last_action := replicate 12 0; _count := 1;
     _init_pos := None; _init_load := None; verbose := verbose |}.

(** The startup ramp of [__call__]: [min(0.1 * self._count, 1)]. *)
Definition test_scale (count : Z) : Q := Qmin (0.1 * inject_Z count) 1.

(** [mul(a, o)] and [add(t, d)] on a configuration entry and a float. *)
Definition mul (a : json) (o : Q) : result Q :=
  a' ← as_float a; mret (a' * o).

Definition add (t : Q) (d : option json) : result Q :=
  d' ← get_as_float d; mret (t + d').

Section generator.

(** The three constants of [spot.constants], a module that is not part of the
    sources at hand, and the policy behind [self._inference_session]:
    [infer obs] is the first row of the model's output for the observation
    vector [obs], or the exception the runtime raises. *)
Context (ordered_joint_names_bosdyn : list string).
Context (DEFAULT_K_Q_P DEFAULT_K_QD_P : list Q).
Context (infer : list Q → result (list Q)).

Definition collect_inputs (self : OnnxCommandGenerator)
    (context : OnnxControllerContext) (state : RobotStateStreamResponse)
    (config : OrbitConfig) : result (list Q) :=
  lin ← get_base_linear_velocity state;
  ang ← get_base_angular_velocity state;
  grav ← get_projected_gravity state;
  pos ← get_joint_positions ordered_joint_names_bosdyn state config;
  vel ← get_joint_velocity ordered_joint_names_bosdyn state;
  mret (lin ++ ang ++ grav ++ velocity_cmd context ++ pos ++ vel
        ++ _last_action self).

(** [acquisition_timestamp] of the context's latest state, 100 ms later. *)
Definition deadline (context : OnnxControllerContext) : result Q :=
  state ← from_option AttributeError (latest_state context);
  mret (acquisition_timestamp (joint_states state) + 0.1).

Definition create_proto (now : Q) (self : OnnxCommandGenerator)
    (context : OnnxControllerContext) (pos_command : list Q)
  : result JointControlStreamRequest :=
  let k_q_p := dict_to_list (kp (_config self)) ordered_joint_names_bosdyn in
  let k_qd_p := dict_to_list (kd (_config self)) ordered_joint_names_bosdyn in
  let N_DOF := length pos_command in
  let pos_cmd := pos_command in
  let vel_cmd := replicate N_DOF 0 in
  let load_cmd := replicate N_DOF 0 in
  (* Fill in gains the first dt *)
  gains ← (if decide (_count self = 1%Z)
           then g1 ← mapM get_as_float k_q_p;
                g2 ← mapM get_as_float k_qd_p;
                mret (g1, g2)
           else mret ([], []));
  end_time ← deadline context;
  mret {| request_timestamp := now; client_name := "rl_example_client";
          k_q_p := gains.1; k_qd_p := gains.2;
          cmd_position := pos_cmd; cmd_velocity := vel_cmd; cmd_load := load_cmd;
          end_time := end_time;
          extrapolation_duration_nanos := 5000000;
          user_command_key := _count self |}.

(** [self._init_pos[joint_ind]]: [None] is not subscriptable. *)
Definition cached (init : option (list Q)) (joint_ind : Z) : result Q :=
  match init with
  | None => Raise TypeError
  | Some l => getitem l joint_ind
  end.

Definition create_proto_hold (now : Q) (self : OnnxCommandGenerator)
    (context : OnnxControllerContext) : result JointControlStreamRequest :=
  let k_q_p := take 12 DEFAULT_K_Q_P in
  let k_qd_p := take 12 DEFAULT_K_QD_P in
  let N_DOF := 12%nat in
  let vel_cmd := replicate N_DOF 0 in
  cmds ← mapM (λ joint_ind,
                 p ← cached (_init_pos self) joint_ind;
                 l ← cached (_init_load self) joint_ind;
                 mret (p, l)) (range N_DOF);
  (* Fill in gains the first dt *)
  let gains := if decide (_count self = 1%Z) then (k_q_p, k_qd_p) else ([], []) in
  end_time ← deadline context;
  mret {| request_timestamp := now; client_name := "rl_example_client";
          k_q_p := gains.1; k_qd_p := gains.2;
          cmd_position := cmds.*1; cmd_velocity := vel_cmd; cmd_load := cmds.*2;
          end_time := end_time;
          extrapolation_duration_nanos := 5000000;
          user_command_key := _count self |}.

(** [__call__] between the caching of the initial pose and the final
    bookkeeping: the command and the raw model output. *)
Definition synthesize (now : Q) (self : OnnxCommandGenerator)
    (context : OnnxControllerContext) (state : RobotStateStreamResponse)
  : result (JointControlStreamRequest * list Q) :=
  (* extract observation data from latest spot state data *)
  input_list ← collect_inputs self context state (_config self);
  (* execute model from onnx file *)
  output ← infer input_list;
  (* post process model output apply action scaling and return to spots
     joint order and offset *)
  let test_scale := test_scale (_count self) in
  scaled_output ← map2 mul (replicate 12 (action_scale (_config self))) output;
  let test_scaled := zip_with Qmult (replicate 12 test_scale) scaled_output in
  let default_joints :=
    dict_to_list (default_joints (_config self)) ordered_joint_names_orbit in
  shifted_output ← map2 add test_scaled default_joints;
  orbit_to_spot ← find_ordering ordered_joint_names_orbit ordered_joint_names_bosdyn;
  reordered_output ← reorder shifted_output orbit_to_spot;
  (* generate proto message from target joint positions *)
  proto ← create_proto now self context reordered_output;
  mret (proto, output).

(** The generator with the initial joint positions and loads cached. *)
Definition cache_init (self : OnnxCommandGenerator)
    (state : RobotStateStreamResponse) : OnnxCommandGenerator :=
  match _init_pos self with
  | None =>
      {| _config := _config self; _last_action := _last_action self;
         _count := _count self;
         _init_pos := Some (position (joint_states state));
         _init_load := Some (load (joint_states state));
         verbose := verbose self |}
  | Some _ => self
  end.

(** [OnnxCommandGenerator.__call__]: the returned message (or the exception)
    together with the generator and the context as the call leaves them. *)
Definition __call__ (now : Q) (self : OnnxCommandGenerator)
    (context : OnnxControllerContext)
  : result JointControlStreamRequest * OnnxCommandGenerator
    * OnnxControllerContext :=
  match latest_state context with
  | None => (Raise AttributeError, self, context)
  | Some state =>
      (* cache initial joint position when command stream starts *)
      let self := cache_init self state in
      match synthesize now self context state with
      | Raise e => (Raise e, self, context)
      | Ok (proto, output) =>
          (* cache data for history and logging *)
          (Ok proto,
           {| _config := _config self; _last_action := output;
              _count := _count self + 1;
              _init_pos := _init_pos self; _init_load := _init_load self;
              verbose := verbose self |},
           {| latest_state := latest_state context;
              velocity_cmd := velocity_cmd context;
              count := count context + 1 |})
      end
  end.

(** What the other threads publish before a command is due: the time, the
    state stored by [StateHandler] and the gamepad's velocity command. *)
Record published : Type := {
  pub_now : Q;
  pub_state : option RobotStateStreamResponse;
  pub_velocity_cmd : list Q
}.

Definition publish (p : published) (context : OnnxControllerContext)
  : OnnxControllerContext :=
  {| latest_state := pub_state p; velocity_cmd := pub_velocity_cmd p;
     count := count context |}.

(** Consecutive calls of the generator, the other threads publishing
    [p] before each: the results in order, and the final objects. *)
Fixpoint run (ps : list published) (self : OnnxCommandGenerator)
    (context : OnnxControllerContext)
  : list (result JointControlStreamRequest) * OnnxCommandGenerator
    * OnnxControllerContext :=
  match ps with
  | [] => ([], self, context)
  | p :: ps' =>
      let '(r, self', context') := __call__ (pub_now p) self (publish p context) in
      let '(rs, self'', context'') := run ps' self' context' in
      (r :: rs, self'', context'')
  end.

(** The commands among the results. *)
Definition commands (rs : list (result JointControlStreamRequest))
  : list JointControlStreamRequest :=
  omap (λ r, match r with Ok c => Some c | Raise _ => None end) rs.

(** The gain payload of a command built from configuration [config]. *)
Definition config_gains (config : OrbitConfig) (c : JointControlStreamRequest)
  : Prop :=
  mapM get_as_float (dict_to_list (kp config) ordered_joint_names_bosdyn)
    = Ok (k_q_p c)
  ∧ mapM get_as_float (dict_to_list (kd config) ordered_joint_names_bosdyn)
    = Ok (k_qd_p c).

(** A command without gain payload. *)
Definition no_gains (c : JointControlStreamRequest) : Prop :=
  k_q_p c = [] ∧ k_qd_p c = [].

(** The observation the specification expects of a robot at rest: zeros,
    except for the projected gravity at positions 6 to 8. *)
Definition resting_observation : list Q :=
  replicate 6 0 ++ [0; 0; -1] ++ replicate 39 0.

End generator.

End onnx_command_generator.

Import onnx_command_generator.

(** * spot/spot.py: the command stream *)

Module spot.

(** What the rest of the system does around one [next()] on the generator
    [_command_stream_loop]: the stop flag as the loop head reads it, what the
    waits of the timing policy see, and what the other threads have published
    when the command policy runs. *)
Record pull : Type := {
  stopping : bool;
  signals : event_divider.oracle;
  pub : published
}.

(** How far the generator got. *)
Inductive progress : Type :=
| Suspended              (* at a [yield], or not started: nothing asked yet *)
| Stopped                (* the stop flag was set: "stopping is True" *)
| TimedOut               (* the timing policy answered [False] *)
| Raised (e : exn)       (* the command policy raised *)
| Diverged.              (* the timing policy did not return *)

(** The members the loop reads and writes, and its results. *)
Record stream : Type := {
  yielded : list JointControlStreamRequest;
  state_of : progress;
  generator : OnnxCommandGenerator;
  context : OnnxControllerContext;
  _started_streaming : bool
}.

Section loop.

Context (ordered_joint_names_bosdyn : list string).
Context (infer : list Q → result (list Q)).

(** [Spot._command_stream_loop] with an [EventDivider] as timing policy and
    an [OnnxCommandGenerator] as command policy, driven by the consumer's
    [next()] calls.  A [next()] resumes after the last [yield] (which sets
    [_started_streaming]), reads the stop flag, waits for the timing policy
    and yields the command of the command policy.  The timing policy is run
    with one unit of fuel more than its factor. *)
Fixpoint _command_stream_loop (timing_policy : event_divider.EventDivider)
    (pulls : list pull) (resumed : bool) (s : stream) : stream :=
  match pulls with
  | [] => s
  | p :: pulls' =>
      let started := if resumed then true else _started_streaming s in
      let stop st :=
        {| yielded := yielded s; state_of := st; generator := generator s;
           context := context s; _started_streaming := started |} in
      if stopping p then stop Stopped
      else
        match event_divider.__call__
                (S (Z.to_nat (event_divider._factor timing_policy)))
                timing_policy (signals p) with
        | None => stop Diverged
        | Some (false, _) => stop TimedOut
        | Some (true, _) =>
            let '(r, generator', context') :=
              __call__ ordered_joint_names_bosdyn infer (pub_now (pub p))
                (generator s) (publish (pub p) (context s)) in
            match r with
            | Raise e =>
                {| yielded := yielded s; state_of := Raised e;
                   generator := generator'; context := context';
                   _started_streaming := started |}
            | Ok proto =>
                _command_stream_loop timing_policy pulls' true
                  {| yielded := yielded s ++ [proto]; state_of := Suspended;
                     generator := generator'; context := context';
                     _started_streaming := started |}
            end
        end
  end.

(** The stream before the first [next()]. *)
Definition start (generator : OnnxCommandGenerator)
    (context : OnnxControllerContext) : stream :=
  {| yielded := []; state_of := Suspended; generator := generator;
     context := context; _started_streaming := false |}.

End loop.

End spot.

(** * A sample session

    Concrete values for what the sources at hand leave open, used to run the
    embedding: the joint order and default gains of [spot.constants] as a
    robot without arm would have them, a policy that answers 0.5 for every
    joint, and two training configurations. *)

Module sample.

#[local] Open Scope string_scope.
#[local] Open Scope Q_scope.

Definition ordered_joint_names_bosdyn : list string :=
  [ "fl_hx"; "fl_hy"; "fl_kn"; "fr_hx"; "fr_hy"; "fr_kn";
    "hl_hx"; "hl_hy"; "hl_kn"; "hr_hx"; "hr_hy"; "hr_kn" ].

Definition DEFAULT_K_Q_P : list Q :=
  [ 624; 936; 286; 624; 936; 286; 624; 936; 286; 624; 936; 286 ].

Definition DEFAULT_K_QD_P : list Q :=
  [ 5.2; 5.2; 2.04; 5.2; 5.2; 2.04; 5.2; 5.2; 2.04; 5.2; 5.2; 2.04 ].

Definition infer (obs : list Q) : result (list Q) := Ok (replicate 12 0.5).

(** A training configuration: [actuators] holds the actuator groups and
    [joint_pos] the neutral offsets by pattern. *)
Definition env_config (actuators joint_pos : list (string * json)) : json :=
  JObj [ ("scene", JObj [ ("robot", JObj [
            ("actuators", JObj actuators);
            ("init_state", JObj [
               ("joint_pos", JObj joint_pos);
               ("pos", JArr [JNum 0; JNum 0; JNum 0.5]) ]) ]) ]);
         ("actions", JObj [ ("joint_pos", JObj [ ("scale", JNum 0.2) ]) ]) ].

Definition group (pattern : string) (stiffness damping : Q) : json :=
  JObj [ ("joint_names_expr", JArr [JStr pattern]);
         ("stiffness", JNum stiffness); ("damping", JNum damping) ].

(** Every joint is matched by a group and by an offset pattern. *)
Definition complete_config : json :=
  env_config [ ("front", group "f" 60 1.5); ("hind", group "h" 50 1.5) ]
             [ ("f", JNum 0.9); ("h", JNum 1.1);
               ("fl_hx", JNum 0.1); ("fr_hx", JNum (-0.1));
               ("hl_hx", JNum 0.1); ("hr_hx", JNum (-0.1));
               ("fl_kn", JNum (-1.5)); ("fr_kn", JNum (-1.5));
               ("hl_kn", JNum (-1.5)); ("hr_kn", JNum (-1.5)) ].

(** Only the front legs are matched: the hind joints keep their
    placeholders. *)
Definition front_only_config : json :=
  env_config [ ("front", group "f" 60 1.5) ] [ ("f", JNum 0.9) ].

(** The front left leg is matched twice: by the group of the front legs and
    then by a group of its own. *)
Definition override_config : json :=
  env_config [ ("front", group "f" 60 1.5); ("front_left", group "fl_" 80 2);
               ("hind", group "h" 50 1.5) ]
             [ ("", JNum 0) ].

(** The document without its [actions] entry. *)
Definition no_actions_config : json :=
  JObj [ ("scene", JObj [ ("robot", JObj [
            ("actuators", JObj [ ("front", group "f" 60 1.5) ]);
            ("init_state", JObj [
               ("joint_pos", JObj [ ("f", JNum 0.9) ]);
               ("pos", JArr [JNum 0; JNum 0; JNum 0.5]) ]) ]) ]) ].

(** The configuration object [load_configuration] makes of a document
    (an empty one if loading raises). *)
Definition loaded (doc : json) : OrbitConfig :=
  match load_configuration literal_re doc with
  | Ok config => config
  | Raise _ =>
      {| kp := ∅; kd := ∅; default_joints := ∅;
         standing_height := JNull; action_scale := JNull |}
  end.

(** A robot at rest, level, with its joints at the neutral offsets of
    [complete_config] (in the robot's joint order). *)
Definition resting : RobotStateStreamResponse :=
  {| kinematic_state :=
       {| velocity_linear := {| x := 0; y := 0; z := 0 |};
          velocity_angular := {| x := 0; y := 0; z := 0 |};
          rotation := {| qw := 1; qx := 0; qy := 0; qz := 0 |} |};
     joint_states :=
       {| position := [ 0.1; 0.9; -1.5; -0.1; 0.9; -1.5;
                        0.1; 1.1; -1.5; -0.1; 1.1; -1.5 ];
          velocity := replicate 12 0;
          load := replicate 12 0;
          acquisition_timestamp := 100 |} |}.

(** The other threads publish the resting state at time [t]. *)
Definition at_rest (t : Q) : published :=
  {| pub_now := t; pub_state := Some resting; pub_velocity_cmd := [0; 0; 0] |}.

End sample.

(** * Facts about the Python layer *)

Lemma bind_Ok {X Y} (m : result X) (f : X → result Y) c :
  m ≫= f = Ok c ↔ ∃ a, m = Ok a ∧ f a = Ok c.
Proof.
  destruct m as [a|e]; simpl.
  - split; [by exists a | by intros (? & [= <-] & ?)].
  - split; [done | by intros (? & ? & ?)].
Qed.

Section py_facts.

Context {A B : Type}.

Lemma mapM_Ok (f : A → result B) l k :
  mapM f l = Ok k ↔ Forall2 (λ a b, f a = Ok b) l k.
Proof.
  revert k; induction l as [|a l IH]; intros k; simpl.
  - split; [intros [= <-]; constructor | by inversion 1].
  - split.
    + intros (b & Hb & (k' & Hk' & [= <-])%bind_Ok)%bind_Ok.
      constructor; [done | by apply IH].
    + inversion 1 as [|? b ? k' Hb Hk']; subst.
      rewrite Hb; simpl. apply IH in Hk'. by rewrite Hk'.
Qed.

Lemma mapM_total (f : A → result B) l :
  Forall (λ a, ∃ b, f a = Ok b) l → ∃ k, mapM f l = Ok k.
Proof.
  induction 1 as [|a l [b Hb] _ [k Hk]]; [by exists []|].
  exists (b :: k). simpl. by rewrite Hb, Hk.
Qed.

Lemma getitem_of_nat (l : list A) (i : nat) :
  getitem l (Z.of_nat i) = from_option IndexError (l !! i).
Proof.
  unfold getitem. destruct (Z.leb_spec 0 (Z.of_nat i)); [|lia].
  by rewrite Nat2Z.id.
Qed.

End py_facts.

Section map2_facts.

Context {A B C : Type} (f : A → B → result C).

Lemma map2_Ok_lookup l1 : ∀ l2 r j c,
  map2 f l1 l2 = Ok r → r !! j = Some c →
  ∃ a b, l1 !! j = Some a ∧ l2 !! j = Some b ∧ f a b = Ok c.
Proof.
  induction l1 as [|a l1 IH]; intros [|b l2] r j c; simpl;
    try (intros [= <-]; done).
  intros (c0 & Hc0 & (r' & Hr' & [= <-])%bind_Ok)%bind_Ok.
  destruct j as [|j]; simpl.
  - intros [= <-]. by exists a, b.
  - intros Hj. by eapply IH.
Qed.

(** Where [f] succeeds on every pair of two lists of equal length, [map2]
    succeeds, and what holds of every single result holds of the list. *)
Lemma map2_total (P : C → Prop) l1 l2 :
  Forall2 (λ a b, ∃ c, f a b = Ok c ∧ P c) l1 l2 →
  ∃ r, map2 f l1 l2 = Ok r ∧ Forall P r ∧ length r = length l1.
Proof.
  induction 1 as [|a b l1 l2 (c & Hc & HP) _ (r & Hr & HPr & Hlen)]; simpl.
  - by exists [].
  - exists (c :: r). rewrite Hc, Hr; simpl. split; [done|].
    split; [by constructor | by rewrite Hlen].
Qed.

End map2_facts.

Section index_facts.

Context `{EqDecision A}.

Lemma first_index_Some (l : list A) x i :
  first_index l x = Some i → l !! i = Some x.
Proof.
  revert i; induction l as [|y l IH]; intros i; simpl; [done|].
  case_decide as Hy; [by intros [= <-]; subst|].
  destruct (first_index l x) as [j|]; simpl; [|done].
  intros [= <-]. by apply IH.
Qed.

Lemma first_index_elem_of (l : list A) x :
  x ∈ l → ∃ i, first_index l x = Some i.
Proof.
  induction 1 as [x l|x y l _ [i Hi]]; simpl.
  - exists 0%nat. by rewrite decide_True.
  - case_decide; [by exists 0%nat|]. exists (S i). by rewrite Hi.
Qed.

(** In a list without duplicates the first position is the only one. *)
Lemma first_index_NoDup (l : list A) x i :
  NoDup l → l !! i = Some x → first_index l x = Some i.
Proof.
  intros Hnd Hi.
  destruct (first_index_elem_of l x) as [j Hj].
  { by eapply list_elem_of_lookup_2. }
  rewrite Hj. f_equal. apply first_index_Some in Hj.
  by eapply NoDup_lookup.
Qed.

End index_facts.

(** * Properties of the reordering helpers *)

Section dict_tools_facts.

Context `{EqDecision K} {V : Type}.

(** Where [find_ordering] succeeds, entry [j] is the position in [input] of
    [output[j]]. *)
Lemma find_ordering_lookup (input output : list K) ordering j key :
  find_ordering input output = Ok ordering →
  output !! j = Some key →
  ∃ i, ordering !! j = Some (Z.of_nat i) ∧ first_index input key = Some i.
Proof.
  unfold find_ordering. rewrite mapM_Ok. intros HF Hj.
  destruct (Forall2_lookup_l _ _ _ _ _ HF Hj) as (z & Hz & Hidx).
  unfold index in Hidx. destruct (first_index input key) as [i|]; [|done].
  exists i. by injection Hidx as <-.
Qed.

Lemma find_ordering_total (input output : list K) :
  output ⊆ input → ∃ ordering, find_ordering input output = Ok ordering.
Proof.
  intros Hsub. apply mapM_total, Forall_forall. intros key Hkey.
  destruct (first_index_elem_of input key) as [i Hi]; [by apply Hsub|].
  exists (Z.of_nat i). unfold index. by rewrite Hi.
Qed.

Lemma find_ordering_length (input output : list K) ordering :
  find_ordering input output = Ok ordering → length ordering = length output.
Proof.
  unfold find_ordering. rewrite mapM_Ok. intros HF.
  symmetry. by eapply Forall2_length.
Qed.

Lemma reorder_lookup (inputs : list V) ordering moved j (i : nat) :
  reorder inputs ordering = Ok moved →
  ordering !! j = Some (Z.of_nat i) →
  moved !! j = inputs !! i ∧ (i < length inputs)%nat.
Proof.
  unfold reorder. rewrite mapM_Ok. intros HF Hj.
  destruct (Forall2_lookup_l _ _ _ _ _ HF Hj) as (v & Hv & Hget).
  rewrite getitem_of_nat in Hget.
  destruct (inputs !! i) as [v'|] eqn:Hi; [|done].
  injection Hget as <-. split; [done|]. by eapply lookup_lt_Some.
Qed.

Lemma reorder_length (inputs : list V) ordering moved :
  reorder inputs ordering = Ok moved → length moved = length ordering.
Proof.
  unfold reorder. rewrite mapM_Ok. intros HF.
  symmetry. by eapply Forall2_length.
Qed.

(** Reordering succeeds when the ordering comes from [find_ordering] on a
    list that is no longer than the inputs. *)
Lemma reorder_total (input output : list K) (inputs : list V) ordering :
  find_ordering input output = Ok ordering →
  (length input ≤ length inputs)%nat →
  ∃ moved, reorder inputs ordering = Ok moved.
Proof.
  intros Hfind Hlen. apply mapM_total, Forall_forall. intros z Hz.
  apply list_elem_of_lookup in Hz as [j Hj].
  destruct (lookup_lt_is_Some_2 output j) as [key Hkey].
  { rewrite <- (find_ordering_length _ _ _ Hfind). by eapply lookup_lt_Some. }
  destruct (find_ordering_lookup _ _ _ _ _ Hfind Hkey) as (i & Hi & Hidx).
  rewrite Hj in Hi. injection Hi as ->.
  apply first_index_Some, lookup_lt_Some in Hidx.
  destruct (lookup_lt_is_Some_2 inputs i) as [v Hv]; [lia|].
  exists v. by rewrite getitem_of_nat, Hv.
Qed.

(** C2, as the code has it.  When [A] has no duplicates and [B] is a
    rearrangement of [A], reordering a list as long as [A] by
    [find_ordering(A, B)] and then by [find_ordering(B, A)] gives the list
    back. *)
Theorem reorder_round_trip (A B : list K) (L : list V) :
  NoDup A →
  A ≡ₚ B →
  length L = length A →
  round_trip A B L = Ok L.
Proof.
  intros HndA Hperm Hlen.
  assert (HndB : NoDup B) by by rewrite <- Hperm.
  destruct (find_ordering_total A B) as [there Hthere].
  { intros key. by rewrite Hperm. }
  destruct (reorder_total A B L there Hthere) as [moved Hmoved]; [lia|].
  destruct (find_ordering_total B A) as [back Hback].
  { intros key. by rewrite Hperm. }
  assert (Hlen_moved : length moved = length B).
  { rewrite (reorder_length _ _ _ Hmoved). by eapply find_ordering_length. }
  destruct (reorder_total B A moved back Hback) as [final Hfinal]; [lia|].
  unfold round_trip. rewrite Hthere; simpl. rewrite Hmoved; simpl.
  rewrite Hback; simpl. rewrite Hfinal. f_equal.
  assert (Hlen_final : length final = length A).
  { rewrite (reorder_length _ _ _ Hfinal). by eapply find_ordering_length. }
  apply list_eq. intros i.
  destruct (A !! i) as [a|] eqn:Ha.
  - destruct (find_ordering_lookup _ _ _ _ _ Hback Ha) as (j & Hj & Hidx_b).
    destruct (reorder_lookup _ _ _ _ _ Hfinal Hj) as [-> _].
    apply first_index_Some in Hidx_b.
    destruct (find_ordering_lookup _ _ _ _ _ Hthere Hidx_b) as (i' & Hi' & Hidx_a).
    destruct (reorder_lookup _ _ _ _ _ Hmoved Hi') as [-> _].
    rewrite (first_index_NoDup A a i HndA Ha) in Hidx_a.
    by injection Hidx_a as <-.
  - apply lookup_ge_None in Ha.
    rewrite (lookup_ge_None_2 final), (lookup_ge_None_2 L) by lia. done.
Qed.

End dict_tools_facts.

Lemma reorder_round_trip_witness :
  round_trip ["b"; "a"; "c"]%string ["c"; "b"; "a"]%string [10; 20; 30]
  = Ok [10; 20; 30].
Proof.
  apply reorder_round_trip.
  - apply (bool_decide_unpack _). vm_compute. exact I.
  - apply (bool_decide_unpack _). vm_compute. exact I.
  - reflexivity.
Defined.

(** C2, as stated, fails when a value occurs twice: both lists name the
    first occurrence, and the second input element is lost. *)
Lemma reorder_round_trip_duplicates :
  ["a"; "a"]%string ≡ₚ ["a"; "a"]%string
  ∧ length [1; 2] = length ["a"; "a"]%string
  ∧ round_trip ["a"; "a"]%string ["a"; "a"]%string [1; 2] = Ok [1; 1]
  ∧ round_trip ["a"; "a"]%string ["a"; "a"]%string [1; 2] ≠ Ok [1; 2].
Proof. split; [done|]. split; [done|]. split; [done|]. by intros [=]. Qed.

(** * Properties of the rate divider *)

Section event_divider_facts.

Import event_divider.

Lemma ticks_S n : ticks (S n) = tick ++ ticks n.
Proof. reflexivity. Qed.

Lemma first_timeout_None signals from n :
  first_timeout signals from n = None ↔
  ∀ k, (from ≤ k < from + n)%nat → signals k = true.
Proof.
  revert from; induction n as [|n IH]; intros from; simpl.
  - split; [intros _ k ?; lia | done].
  - destruct (signals from) eqn:Hs.
    + rewrite IH. split; intros H k Hk.
      * destruct (decide (k = from)) as [->|]; [done|]. apply H; lia.
      * apply H; lia.
    + split; [done|]. intros H. rewrite H in Hs; [done | lia].
Qed.

Lemma first_timeout_Some signals from n k :
  first_timeout signals from n = Some k →
  (from ≤ k < from + n)%nat ∧ signals k = false ∧
  ∀ j, (from ≤ j < k)%nat → signals j = true.
Proof.
  revert from; induction n as [|n IH]; intros from; simpl; [done|].
  destruct (signals from) eqn:Hs.
  - intros H. apply IH in H as (? & ? & H).
    split; [lia|]. split; [done|].
    intros j Hj. destruct (decide (j = from)) as [->|]; [done|]. apply H; lia.
  - intros [= <-]. split; [lia|]. split; [done|]. intros; lia.
Qed.

(** The loop, started with [n] rounds to go and more fuel than that, ends:
    at the first timeout if there is one, after [n] rounds otherwise. *)
Lemma loop_spec n : ∀ fuel self signals count waits trace,
  Z.to_nat (_factor self - count) = n →
  (n < fuel)%nat →
  loop fuel self signals count waits trace =
  Some match first_timeout signals waits n with
       | None => (true, trace ++ ticks n)
       | Some k => (false, trace ++ ticks (k - waits) ++ [Wait 1 false])
       end.
Proof.
  induction n as [|n IH]; intros [|fuel] self signals count waits trace Hn Hf;
    try lia; simpl.
  - destruct (Z.ltb_spec count (_factor self)); [lia|].
    by rewrite app_nil_r.
  - destruct (Z.ltb_spec count (_factor self)); [|lia].
    destruct (signals waits) eqn:Hs.
    + rewrite (IH fuel) by lia. f_equal.
      destruct (first_timeout signals (S waits) n) as [k|] eqn:Hk.
      * apply first_timeout_Some in Hk as [Hk _].
        replace (k - waits)%nat with (S (k - S waits)) by lia.
        rewrite (ticks_S (k - S waits)). by rewrite <- !(assoc_L (++)).
      * rewrite (ticks_S n). by rewrite <- !(assoc_L (++)).
    + by rewrite Nat.sub_diag.
Qed.

(** C10. With a factor of zero or less the loop body never runs: the call
    answers [True] at once and neither waits on nor clears the event, so the
    command clock is not gated by the state signal at all. *)
Theorem event_divider_nonpositive_factor self signals fuel :
  _factor self ≤ 0 →
  (0 < fuel)%nat →
  event_divider.__call__ fuel self signals = Some (true, []).
Proof.
  intros Hf Hfuel. unfold event_divider.__call__.
  rewrite (loop_spec 0) by lia. reflexivity.
Qed.

Lemma event_divider_nonpositive_factor_witness :
  event_divider.__call__ 1 {| _factor := -3 |} (λ _, false) = Some (true, []).
Proof.
  apply event_divider_nonpositive_factor; simpl; lia.
Defined.

(** C5. With a factor [n >= 1] the call ends, and it answers [True] exactly
    when the first [n] waits all see the signal, each within its own
    1-second window.  A [True] comes after exactly [n] successful waits,
    each followed by a clear of the event; a [False] comes straight after the
    first wait that times out, with nothing done after it. *)
Theorem event_divider_call self signals fuel :
  1 ≤ _factor self →
  (Z.to_nat (_factor self) < fuel)%nat →
  ∃ b trace,
    event_divider.__call__ fuel self signals = Some (b, trace) ∧
    (b = true ↔ ∀ k, (k < Z.to_nat (_factor self))%nat → signals k = true) ∧
    (b = true → trace = ticks (Z.to_nat (_factor self))) ∧
    (b = false →
     ∃ k, (k < Z.to_nat (_factor self))%nat ∧
          (∀ j, (j < k)%nat → signals j = true) ∧
          signals k = false ∧
          trace = ticks k ++ [Wait 1 false]).
Proof.
  intros Hf Hfuel. unfold event_divider.__call__.
  rewrite (loop_spec (Z.to_nat (_factor self))) by lia.
  destruct (first_timeout signals 0 (Z.to_nat (_factor self))) as [k|] eqn:Hk.
  - apply first_timeout_Some in Hk as (Hk & Hs & Hbefore).
    eexists false, _. split; [reflexivity|]. split; [|split]; [|done|].
    + split; [done|]. intros H. rewrite H in Hs; [done | lia].
    + intros _. exists k. rewrite Nat.sub_0_r.
      split; [lia|]. split; [|done]. intros j Hj. apply Hbefore. lia.
  - eexists true, _. split; [reflexivity|]. split; [|split]; [|done|done].
    split; [|done]. intros _ k Hlt.
    eapply first_timeout_None in Hk; [done | lia].
Qed.

Lemma event_divider_call_witness :
  ∃ b trace,
    event_divider.__call__ 7 {| _factor := 6 |} (λ k, negb (k =? 4)%nat) = Some (b, trace) ∧
    (b = true ↔ ∀ k, (k < 6)%nat → negb (k =? 4)%nat = true) ∧
    (b = true → trace = ticks 6) ∧
    (b = false →
     ∃ k, (k < 6)%nat ∧
          (∀ j, (j < k)%nat → negb (j =? 4)%nat = true) ∧
          negb (k =? 4)%nat = false ∧
          trace = ticks k ++ [Wait 1 false]).
Proof.
  apply (event_divider_call {| _factor := 6 |}); simpl; lia.
Defined.

End event_divider_facts.

(** * Properties of the joystick curve *)

Section gamepad_facts.

Import gamepad.

#[local] Open Scope Q_scope.

Lemma clip_proper a a' lo lo' hi hi' :
  a == a' → lo == lo' → hi == hi' → clip a lo hi == clip a' lo' hi'.
Proof. intros Ha Hlo Hhi. unfold clip. by rewrite Ha, Hlo, Hhi. Qed.

Lemma clip_bounds a lo hi : lo <= hi → lo <= clip a lo hi <= hi.
Proof.
  intros H. unfold clip. split.
  - apply Q.min_glb; [done | apply Q.le_max_r].
  - apply Q.le_min_l.
Qed.

Lemma clip_inside a lo hi : lo <= a <= hi → clip a lo hi == a.
Proof.
  intros [H1 H2]. unfold clip.
  rewrite (Q.max_l a lo) by done. by apply Q.min_r.
Qed.

(** The curve on a sample that points forward and lies outside the
    deadband: the forward branch of the source. *)
Lemma apply_curve_forward_branch value cfg :
  0 < oriented value cfg → deadband cfg <= oriented value cfg →
  _apply_curve value cfg =
  let slope := (max_forward_dir cfg - min_forward_dir cfg) / (1 - deadband cfg) in
  clip (slope * oriented value cfg + (max_forward_dir cfg - slope))
       (min_forward_dir cfg) (max_forward_dir cfg).
Proof.
  intros Hpos Hdb. unfold _apply_curve, oriented in *.
  set (x := if inverted cfg then - value else value) in *.
  destruct (Qlt_le_dec (Qabs x) (deadband cfg)) as [Habs|_].
  - rewrite Qabs_pos in Habs by lra. lra.
  - destruct (Qlt_le_dec 0 x); [done | lra].
Qed.

(** The curve on a sample that points backward and lies outside the
    deadband: the reverse branch of the source. *)
Lemma apply_curve_reverse_branch value cfg :
  oriented value cfg < 0 → deadband cfg <= Qabs (oriented value cfg) →
  _apply_curve value cfg =
  let slope := (max_reverse_dir cfg - min_reverse_dir cfg) / (1 - deadband cfg) in
  clip (slope * oriented value cfg + (max_reverse_dir cfg - slope))
       (- max_reverse_dir cfg) (- min_reverse_dir cfg).
Proof.
  intros Hneg Hdb. unfold _apply_curve, oriented in *.
  set (x := if inverted cfg then - value else value) in *.
  destruct (Qlt_le_dec (Qabs x) (deadband cfg)) as [Habs|_]; [lra|].
  destruct (Qlt_le_dec 0 x); [lra | done].
Qed.

(** C8. Outside the deadband a forward sample is mapped by the linear remap
    of [[deadband, 1]] onto [[min_forward_dir, max_forward_dir]], clamped to
    that interval; the scenario of the specification gives 0.625. *)
Theorem apply_curve_forward :
  (∀ value cfg,
     0 <= deadband cfg → deadband cfg < 1 →
     0 <= min_forward_dir cfg → min_forward_dir cfg <= max_forward_dir cfg →
     0 < oriented value cfg → deadband cfg <= oriented value cfg →
     _apply_curve value cfg ==
       clip (forward_remap (oriented value cfg) cfg)
            (min_forward_dir cfg) (max_forward_dir cfg)
     ∧ forward_remap (oriented value cfg) cfg ==
         min_forward_dir cfg
         + (max_forward_dir cfg - min_forward_dir cfg) / (1 - deadband cfg)
           * (oriented value cfg - deadband cfg)
     ∧ forward_remap (deadband cfg) cfg == min_forward_dir cfg
     ∧ forward_remap 1 cfg == max_forward_dir cfg
     ∧ min_forward_dir cfg <= _apply_curve value cfg <= max_forward_dir cfg
     ∧ (oriented value cfg <= 1 →
        _apply_curve value cfg == forward_remap (oriented value cfg) cfg))
  ∧ _apply_curve 0.6 (Build_AxisConfig 1 false 0.2 0.25 1.0 0.25 1.0) == 0.625.
Proof.
  split; [|reflexivity].
  intros value cfg Hdb0 Hdb1 Hmin Hmax Hpos Hout.
  rewrite apply_curve_forward_branch by done. cbv zeta.
  set (x := oriented value cfg) in *.
  assert (Hremap : (max_forward_dir cfg - min_forward_dir cfg) / (1 - deadband cfg) * x
                   + (max_forward_dir cfg
                      - (max_forward_dir cfg - min_forward_dir cfg) / (1 - deadband cfg))
                   == forward_remap x cfg).
  { unfold forward_remap. field. lra. }
  assert (Hslope : forward_remap x cfg ==
                   min_forward_dir cfg
                   + (max_forward_dir cfg - min_forward_dir cfg) / (1 - deadband cfg)
                     * (x - deadband cfg)).
  { unfold forward_remap. field. lra. }
  rewrite (clip_proper _ (forward_remap x cfg) _ (min_forward_dir cfg)
             _ (max_forward_dir cfg)) by (done || reflexivity).
  split; [reflexivity|]. split; [done|].
  split; [unfold forward_remap; field; lra|].
  split; [unfold forward_remap; field; lra|].
  split; [by apply clip_bounds|].
  intros Hx1. apply clip_inside.
  assert (Hd : 0 < 1 - deadband cfg) by lra.
  assert (Hfrac : 0 <= (x - deadband cfg) / (1 - deadband cfg) <= 1).
  { split.
    - apply Qle_shift_div_l; [done | lra].
    - apply Qle_shift_div_r; [done | lra]. }
  unfold forward_remap. nra.
Qed.

Lemma apply_curve_forward_witness :
  _apply_curve 0.6 (Build_AxisConfig 1 false 0.2 0.25 1.0 0.25 1.0) ==
  clip (forward_remap 0.6 (Build_AxisConfig 1 false 0.2 0.25 1.0 0.25 1.0))
       0.25 1.0.
Proof.
  apply (proj1 apply_curve_forward 0.6
           (Build_AxisConfig 1 false 0.2 0.25 1.0 0.25 1.0));
    vm_compute; congruence.
Defined.

(** C1, at a failing sample.  With the default axis (deadband 0.2, reverse
    bounds 0.25 and 1) a fully reversed stick gives -0.875, where the mirror
    image of the forward remap gives -1, the negated [max_reverse_dir]. *)
Theorem apply_curve_reverse_not_mirrored :
  oriented 1 x_axis_config == -1
  ∧ _apply_curve 1 x_axis_config == -0.875
  ∧ clip (reverse_mirror (oriented 1 x_axis_config) x_axis_config)
         (- max_reverse_dir x_axis_config) (- min_reverse_dir x_axis_config)
    == -1.
Proof. repeat split. Qed.

(** On the reverse side the code is the mirror image shifted by twice
    [max_reverse_dir - slope]: the two agree only where that vanishes or the
    clamp hides it. *)
Lemma apply_curve_reverse_offset value cfg :
  deadband cfg < 1 →
  oriented value cfg < 0 → deadband cfg <= Qabs (oriented value cfg) →
  _apply_curve value cfg ==
  clip (reverse_mirror (oriented value cfg) cfg
        + 2 * (max_reverse_dir cfg
               - (max_reverse_dir cfg - min_reverse_dir cfg)
                 / (1 - deadband cfg)))
       (- max_reverse_dir cfg) (- min_reverse_dir cfg).
Proof.
  intros Hdb Hneg Hout.
  rewrite apply_curve_reverse_branch by done. cbv zeta.
  apply clip_proper; try reflexivity.
  unfold reverse_mirror. rewrite (Qabs_neg (oriented value cfg)) by lra.
  field. lra.
Qed.

(** The two scenarios on IEEE doubles: the forward scenario of the
    specification gives 0.625 there too, the fully reversed stick -0.875. *)
Example apply_curve_binary64 :
  binary64._apply_curve 0.6 false 0.2 0.25 1 0.25 1 = 0.625%float
  ∧ binary64._apply_curve 1 true 0.2 0.25 1 0.25 1 = (-0.875)%float.
Proof. by vm_compute. Qed.

End gamepad_facts.

(** * Properties of the configuration loader *)

Section configuration_facts.

Context (re_compile : string → option (string → bool)).

#[local] Open Scope string_scope.

#[local] Abbreviation load_group := (load_group re_compile).
#[local] Abbreviation load_configuration := (load_configuration re_compile).
#[local] Abbreviation unmatched := (unmatched re_compile).

Lemma set_matching_lookup {V} (data : gmap string V) regex value key :
  set_matching data regex value !! key
  = (λ old, if regex key then value else old) <$> data !! key.
Proof.
  unfold set_matching. rewrite map_lookup_imap. by destruct (data !! key).
Qed.

Lemma set_matching_unmatched {V} (data : gmap string V) regex value key :
  regex key = false → set_matching data regex value !! key = data !! key.
Proof.
  intros Hkey. rewrite set_matching_lookup, Hkey. by destruct (data !! key).
Qed.

Lemma placeholders_lookup joint :
  joint ∈ ordered_joint_names_orbit → placeholders !! joint = Some JNull.
Proof.
  unfold ordered_joint_names_orbit. rewrite !elem_of_cons, elem_of_nil.
  intros H. repeat (destruct H as [->|H]; [by vm_compute|]). done.
Qed.

Lemma compile_Ok v regex :
  compile re_compile v = Ok regex →
  ∃ pattern, v = JStr pattern ∧ re_compile pattern = Some regex.
Proof.
  destruct v as [| | |pattern| |]; simpl; try done.
  destruct (re_compile pattern) as [r|] eqn:Hre; [|done].
  intros [= <-]. by exists pattern.
Qed.

Lemma load_group_Ok actuators acc group acc' :
  load_group actuators acc group = Ok acc' →
  ∃ g exprs pattern regex stiffness damping,
    getitem_key actuators group = Ok g
    ∧ getitem_key g "joint_names_expr" = Ok exprs
    ∧ getitem_pos exprs 0 = Ok (JStr pattern)
    ∧ re_compile pattern = Some regex
    ∧ getitem_key g "stiffness" = Ok stiffness
    ∧ getitem_key g "damping" = Ok damping
    ∧ acc' = (set_matching acc.1 regex stiffness,
              set_matching acc.2 regex damping).
Proof.
  unfold orbit_configuration.load_group.
  intros (g & Hg & (exprs & Hexprs & (expr & Hexpr & (regex & Hregex &
          (stiffness & Hs & (damping & Hd & [= <-])%bind_Ok)%bind_Ok)%bind_Ok)
          %bind_Ok)%bind_Ok)%bind_Ok.
  apply compile_Ok in Hregex as (pattern & -> & Hre).
  by exists g, exprs, pattern, regex, stiffness, damping.
Qed.

(** The loop over the actuator groups leaves an unmatched joint alone and
    reads the three entries of every group. *)
Lemma load_groups_Ok actuators groups : ∀ acc acc',
  foldM (load_group actuators) acc groups = Ok acc' →
  Forall (group_keyed actuators) groups
  ∧ ∀ joint, unmatched actuators joint →
      acc'.1 !! joint = acc.1 !! joint ∧ acc'.2 !! joint = acc.2 !! joint.
Proof.
  induction groups as [|group groups IH]; intros acc acc'; simpl.
  - intros [= <-]. by split.
  - intros (acc1 & Hgroup & Hrest)%bind_Ok.
    apply IH in Hrest as [Hkeyed Hrest].
    apply load_group_Ok in Hgroup
      as (g & exprs & pattern & regex & stiffness & damping
          & Hg & Hexprs & Hpattern & Hre & Hs & Hd & ->).
    split.
    + constructor; [|done]. exists g. by rewrite Hexprs, Hs, Hd.
    + intros joint Hjoint. destruct (Hrest joint Hjoint) as [-> ->]; simpl.
      pose proof (Hjoint group g exprs pattern regex Hg Hexprs Hpattern Hre).
      by rewrite !set_matching_unmatched.
Qed.

Lemma load_configuration_Ok env_config config :
  load_configuration env_config = Ok config →
  well_keyed env_config
  ∧ ∀ actuators joint,
      actuators_of env_config = Ok actuators →
      joint ∈ ordered_joint_names_orbit →
      unmatched actuators joint →
      kp config !! joint = Some JNull ∧ kd config !! joint = Some JNull.
Proof.
  unfold orbit_configuration.load_configuration.
  intros (scene & Hscene & (robot & Hrobot & (actuators & Hactuators &
          (groups & Hgroups & (gains & Hgains & (init_state & Hinit &
          (joint_pos & Hjoint_pos & (exprs & _ & (offsets & _ &
          (actions & Hactions & (ajp & Hajp & (scale & Hscale &
          (pos & Hpos & (height & _ & [= <-])%bind_Ok)%bind_Ok)%bind_Ok)
          %bind_Ok)%bind_Ok)%bind_Ok)%bind_Ok)%bind_Ok)%bind_Ok)%bind_Ok)
          %bind_Ok)%bind_Ok)%bind_Ok)%bind_Ok.
  apply load_groups_Ok in Hgains as [Hkeyed Hgains]. split.
  - by exists scene, robot, actuators, groups, init_state, joint_pos, actions,
      ajp, scale, pos.
  - intros actuators' joint Hact Hjoint Hunmatched; simpl.
    unfold actuators_of in Hact. rewrite Hscene in Hact; simpl in Hact.
    rewrite Hrobot in Hact; simpl in Hact.
    rewrite Hactuators in Hact. injection Hact as <-.
    destruct (Hgains joint Hunmatched) as [-> ->]; simpl.
    by rewrite placeholders_lookup.
Qed.

(** C3, as the code has it.  A document that lacks a key the loader reads
    makes [load_configuration] raise.  A joint that no actuator pattern
    matches does not: when the loader returns, that joint still has the
    [None] placeholder as its stiffness and as its damping. *)
Theorem load_configuration_checks_keys_only env_config :
  (¬ well_keyed env_config → raises (load_configuration env_config))
  ∧ ∀ config actuators joint,
      load_configuration env_config = Ok config →
      actuators_of env_config = Ok actuators →
      joint ∈ ordered_joint_names_orbit →
      unmatched actuators joint →
      kp config !! joint = Some JNull ∧ kd config !! joint = Some JNull.
Proof.
  split.
  - intros Hkeys.
    destruct (load_configuration env_config) as [config|e] eqn:Hload.
    + by apply load_configuration_Ok in Hload as [? _].
    + by exists e.
  - intros config actuators joint Hload.
    apply load_configuration_Ok in Hload as [_ H]. apply H.
Qed.

End configuration_facts.

(** * Properties of the command generator *)

Section generator_facts.

Context (ordered_joint_names_bosdyn : list string).
Context (DEFAULT_K_Q_P DEFAULT_K_QD_P : list Q).
Context (infer : list Q → result (list Q)).

#[local] Abbreviation create_proto := (create_proto ordered_joint_names_bosdyn).
#[local] Abbreviation create_proto_hold := (create_proto_hold DEFAULT_K_Q_P DEFAULT_K_QD_P).
#[local] Abbreviation synthesize := (synthesize ordered_joint_names_bosdyn infer).
#[local] Abbreviation __call__ := (__call__ ordered_joint_names_bosdyn infer).
#[local] Abbreviation run := (run ordered_joint_names_bosdyn infer).
#[local] Abbreviation config_gains := (config_gains ordered_joint_names_bosdyn).
#[local] Abbreviation collect_inputs :=
  (collect_inputs ordered_joint_names_bosdyn).

Lemma create_proto_Ok now self context pos_command proto :
  create_proto now self context pos_command = Ok proto →
  user_command_key proto = _count self
  ∧ cmd_position proto = pos_command
  ∧ (if decide (_count self = 1) then config_gains (_config self) proto
     else no_gains proto).
Proof.
  unfold onnx_command_generator.create_proto.
  intros (gains & Hgains & (t & _ & [= <-])%bind_Ok)%bind_Ok; simpl.
  split; [done|]. split; [done|].
  destruct (decide (_count self = 1)).
  - apply bind_Ok in Hgains as (g1 & Hg1 & (g2 & Hg2 & [= <-])%bind_Ok).
    by split.
  - by injection Hgains as <-.
Qed.

Lemma cache_init_count self state : _count (cache_init self state) = _count self.
Proof. unfold cache_init. by destruct (_init_pos self). Qed.

Lemma cache_init_config self state :
  _config (cache_init self state) = _config self.
Proof. unfold cache_init. by destruct (_init_pos self). Qed.

Lemma synthesize_Ok now self context state proto output :
  synthesize now self context state = Ok (proto, output) →
  user_command_key proto = _count self
  ∧ (if decide (_count self = 1) then config_gains (_config self) proto
     else no_gains proto).
Proof.
  unfold onnx_command_generator.synthesize.
  intros (? & _ & (? & _ & (? & _ & (? & _ & (? & _ & (? & _ &
          (p & Hp & [= <- <-])%bind_Ok)%bind_Ok)%bind_Ok)%bind_Ok)%bind_Ok)
          %bind_Ok)%bind_Ok.
  apply create_proto_Ok in Hp as (? & _ & ?). by split.
Qed.

(** A call that returns a command: both counters advance by one, the
    command carries the old cycle index as its key, and its gain payload is
    decided by that index. *)
Lemma call_Ok now self context proto self' context' :
  __call__ now self context = (Ok proto, self', context') →
  user_command_key proto = _count self
  ∧ _count self' = _count self + 1
  ∧ count context' = count context + 1
  ∧ _config self' = _config self
  ∧ (if decide (_count self = 1) then config_gains (_config self) proto
     else no_gains proto).
Proof.
  unfold onnx_command_generator.__call__.
  destruct (latest_state context) as [state|]; [|done].
  destruct (synthesize now (cache_init self state) context state)
    as [[p output]|e] eqn:Hs; [|done].
  intros [= <- <- <-]; simpl.
  apply synthesize_Ok in Hs as [Hkey Hgains].
  rewrite cache_init_count, cache_init_config in *. by repeat split.
Qed.

(** A call that raises leaves both counters and the configuration alone. *)
Lemma call_Raise now self context e self' context' :
  __call__ now self context = (Raise e, self', context') →
  _count self' = _count self ∧ context' = context
  ∧ _config self' = _config self.
Proof.
  unfold onnx_command_generator.__call__.
  destruct (latest_state context) as [state|].
  - destruct (synthesize now (cache_init self state) context state)
      as [[p output]|e'] eqn:Hs; [done|].
    intros [= <- <- <-]. by rewrite cache_init_count, cache_init_config.
  - by intros [= <- <- <-].
Qed.

Lemma commands_Ok c rs : commands (Ok c :: rs) = c :: commands rs.
Proof. reflexivity. Qed.

Lemma commands_Raise e rs : commands (Raise e :: rs) = commands rs.
Proof. reflexivity. Qed.

Lemma publish_count p context : count (publish p context) = count context.
Proof. reflexivity. Qed.

(** Along consecutive calls the keys of the commands count up from the
    generator's cycle index, and both counters grow by the number of
    commands produced. *)
Lemma run_counters ps : ∀ self context,
  let '(rs, self', context') := run ps self context in
  user_command_key <$> commands rs
    = seqZ (_count self) (Z.of_nat (length (commands rs)))
  ∧ _count self' = _count self + Z.of_nat (length (commands rs))
  ∧ count context' = count context + Z.of_nat (length (commands rs))
  ∧ _config self' = _config self.
Proof.
  induction ps as [|p ps IH]; intros self context; simpl.
  - repeat split; lia.
  - destruct (__call__ (pub_now p) self (publish p context))
      as [[r self1] context1] eqn:Hcall.
    specialize (IH self1 context1).
    destruct (run ps self1 context1) as [[rs self2] context2].
    destruct IH as (IHkeys & IHself & IHctx & IHcfg).
    destruct r as [proto|e].
    + apply call_Ok in Hcall as (Hkey & Hself & Hctx & Hcfg & _).
      rewrite publish_count in Hctx.
      rewrite commands_Ok, fmap_cons, length_cons.
      rewrite Nat2Z.inj_succ, seqZ_cons by lia.
      rewrite Z.pred_succ, IHkeys, Hkey, Hself.
      replace (Z.succ (_count self)) with (_count self + 1) by lia.
      repeat split; [lia | lia | congruence].
    + apply call_Raise in Hcall as (Hself & -> & Hcfg).
      rewrite publish_count in IHctx.
      rewrite commands_Raise, IHkeys, IHself, IHctx, Hself.
      repeat split; congruence.
Qed.

(** C6. Whatever the other threads publish between the calls, and however
    many calls raise, the commands of a fresh generator carry the keys
    1, 2, 3, ... in order, the context's count and the generator's cycle
    index have advanced by exactly one per command, and a single call moves
    both counters together: up by one with a command, not at all without. *)
Theorem command_count_progression ps config verbose :
  let '(rs, self', context') := run ps (__init__ config verbose) new_context in
  user_command_key <$> commands rs
    = seqZ 1 (Z.of_nat (length (commands rs)))
  ∧ count context' = Z.of_nat (length (commands rs))
  ∧ _count self' = 1 + Z.of_nat (length (commands rs))
  ∧ ∀ now self context,
      let '(r, self1, context1) := __call__ now self context in
      match r with
      | Ok proto =>
          user_command_key proto = _count self
          ∧ _count self1 = _count self + 1
          ∧ count context1 = count context + 1
      | Raise _ =>
          _count self1 = _count self ∧ count context1 = count context
      end.
Proof.
  pose proof (run_counters ps (__init__ config verbose) new_context) as H.
  destruct (run ps (__init__ config verbose) new_context)
    as [[rs self'] context'].
  destruct H as (Hkeys & Hself & Hctx & _). simpl in *.
  split; [done|]. split; [lia|]. split; [lia|].
  intros now self context.
  destruct (__call__ now self context) as [[[proto|e] self1] context1] eqn:Hcall.
  - apply call_Ok in Hcall as (? & ? & ? & _). by repeat split.
  - apply call_Raise in Hcall as (? & -> & _). by split.
Qed.

(** Once the cycle index has passed 1, no command carries gains. *)
Lemma run_no_gains ps : ∀ self context,
  1 < _count self →
  let '(rs, _, _) := run ps self context in Forall no_gains (commands rs).
Proof.
  induction ps as [|p ps IH]; intros self context Hcount; simpl.
  - constructor.
  - destruct (__call__ (pub_now p) self (publish p context))
      as [[r self1] context1] eqn:Hcall.
    specialize (IH self1 context1).
    destruct (run ps self1 context1) as [[rs self2] context2].
    destruct r as [proto|e].
    + apply call_Ok in Hcall as (_ & Hself & _ & _ & Hgains).
      rewrite decide_False in Hgains by lia.
      rewrite commands_Ok. constructor; [done|]. apply IH. lia.
    + apply call_Raise in Hcall as (Hself & _ & _).
      rewrite commands_Raise. apply IH. lia.
Qed.

(** From cycle index 1 on, the first command carries the gains of the
    configuration and no later one carries any. *)
Lemma run_first_gains ps : ∀ self context,
  _count self = 1 →
  let '(rs, _, _) := run ps self context in
  match commands rs with
  | [] => True
  | c :: cs => config_gains (_config self) c ∧ Forall no_gains cs
  end.
Proof.
  induction ps as [|p ps IH]; intros self context Hcount; simpl; [done|].
  destruct (__call__ (pub_now p) self (publish p context))
    as [[r self1] context1] eqn:Hcall.
  specialize (IH self1 context1).
  pose proof (run_no_gains ps self1 context1) as Hlater.
  destruct (run ps self1 context1) as [[rs self2] context2].
  destruct r as [proto|e].
  - apply call_Ok in Hcall as (_ & Hself & _ & _ & Hgains).
    rewrite decide_True in Hgains by done.
    rewrite commands_Ok. split; [done|]. apply Hlater. lia.
  - apply call_Raise in Hcall as (Hself & _ & Hcfg).
    rewrite commands_Raise, <- Hcfg. apply IH. lia.
Qed.

Lemma create_proto_hold_Ok now self context c :
  create_proto_hold now self context = Ok c →
  user_command_key c = _count self
  ∧ (if decide (_count self = 1)
     then k_q_p c = take 12 DEFAULT_K_Q_P ∧ k_qd_p c = take 12 DEFAULT_K_QD_P
     else no_gains c).
Proof.
  unfold onnx_command_generator.create_proto_hold.
  intros (cmds & _ & (t & _ & [= <-])%bind_Ok)%bind_Ok; simpl.
  split; [done|]. by destruct (decide (_count self = 1)).
Qed.

(** C4, as the code has it.  Both [create_proto] and [create_proto_hold]
    attach the gains exactly when the generator's cycle index is 1, and only
    [__call__] advances that index, after its command is built.  So among
    the commands of consecutive calls of a fresh generator the first alone
    carries gains, and a hold command carries gains exactly as long as no
    call has produced a command. *)
Theorem gains_at_cycle_index_one :
  (∀ ps config verbose,
     let '(rs, self', _) := run ps (__init__ config verbose) new_context in
     match commands rs with
     | [] => True
     | c :: cs => config_gains config c ∧ Forall no_gains cs
     end
     ∧ ∀ now context c,
         create_proto_hold now self' context = Ok c →
         if decide (commands rs = [])
         then k_q_p c = take 12 DEFAULT_K_Q_P
              ∧ k_qd_p c = take 12 DEFAULT_K_QD_P
         else no_gains c)
  ∧ (∀ now self context pos_command c,
       create_proto now self context pos_command = Ok c →
       if decide (_count self = 1) then config_gains (_config self) c
       else no_gains c)
  ∧ (∀ now self context c,
       create_proto_hold now self context = Ok c →
       if decide (_count self = 1)
       then k_q_p c = take 12 DEFAULT_K_Q_P
            ∧ k_qd_p c = take 12 DEFAULT_K_QD_P
       else no_gains c).
Proof.
  split; [|split].
  - intros ps config verbose.
    pose proof (run_first_gains ps (__init__ config verbose) new_context eq_refl)
      as Hfirst.
    pose proof (run_counters ps (__init__ config verbose) new_context) as Hcnt.
    destruct (run ps (__init__ config verbose) new_context)
      as [[rs self'] context'].
    split; [done|]. intros now context c Hc.
    apply create_proto_hold_Ok in Hc as [_ Hgains].
    destruct Hcnt as (_ & Hself & _). simpl in Hself.
    destruct (commands rs) as [|c0 cs] eqn:Hcs; simpl in *.
    + by rewrite decide_True in Hgains by lia.
    + by rewrite decide_False in Hgains by lia.
  - intros now self context pos_command c Hc.
    by apply create_proto_Ok in Hc as (_ & _ & ?).
  - intros now self context c Hc.
    by apply create_proto_hold_Ok in Hc as [_ ?].
Qed.

(** The position targets of a command: the model output, scaled by
    [action_scale] and by the ramp factor of the current cycle index, plus
    the neutral offset, joint by joint in orbit order, then reordered. *)
Lemma synthesize_positions now self context state proto output :
  synthesize now self context state = Ok (proto, output) →
  ∃ shifted ordering,
    find_ordering ordered_joint_names_orbit ordered_joint_names_bosdyn
      = Ok ordering
    ∧ reorder shifted ordering = Ok (cmd_position proto)
    ∧ ∀ j t, shifted !! j = Some t →
        ∃ a o name d,
          as_float (action_scale (_config self)) = Ok a
          ∧ output !! j = Some o
          ∧ ordered_joint_names_orbit !! j = Some name
          ∧ get_as_float (default_joints (_config self) !! name) = Ok d
          ∧ t = (test_scale (_count self) * (a * o) + d)%Q.
Proof.
  unfold onnx_command_generator.synthesize.
  intros (obs & _ & (out & _ & (scaled & Hscaled & (shifted & Hshifted &
          (ordering & Hordering & (reordered & Hreordered &
          (p & Hp & [= <- <-])%bind_Ok)%bind_Ok)%bind_Ok)%bind_Ok)%bind_Ok)
          %bind_Ok)%bind_Ok.
  apply create_proto_Ok in Hp as (_ & -> & _).
  exists shifted, ordering. split; [done|]. split; [done|].
  intros j t Ht.
  destruct (map2_Ok_lookup _ _ _ _ _ _ Hshifted Ht) as (ts & dopt & Hts & Hd & Hadd).
  apply lookup_zip_with_Some in Hts as (fct & sc & -> & Hfct & Hsc).
  apply lookup_replicate in Hfct as [-> _].
  destruct (map2_Ok_lookup _ _ _ _ _ _ Hscaled Hsc) as (aj & o & Haj & Ho & Hmul).
  apply lookup_replicate in Haj as [-> _].
  unfold dict_to_list in Hd. rewrite list_lookup_fmap in Hd.
  destruct (ordered_joint_names_orbit !! j) as [name|] eqn:Hname; [|done].
  injection Hd as <-.
  unfold mul in Hmul. apply bind_Ok in Hmul as (a & Ha & [= <-]).
  unfold add in Hadd. apply bind_Ok in Hadd as (d & Hd & [= <-]).
  by exists a, o, name, d.
Qed.

Lemma test_scale_ramp c :
  1 ≤ c ≤ 9 → (test_scale c == 0.1 * inject_Z c)%Q.
Proof.
  intros [_ H9]. unfold test_scale. apply Q.min_l.
  rewrite Zle_Qle in H9. change (inject_Z 9) with 9%Q in H9. lra.
Qed.

Lemma test_scale_full c : 10 ≤ c → (test_scale c == 1)%Q.
Proof.
  intros H10. unfold test_scale. apply Q.min_r.
  rewrite Zle_Qle in H10. change (inject_Z 10) with 10%Q in H10. lra.
Qed.

(** C9. The cycle index of a fresh generator is 1 and grows by one with
    every command, so the n-th command is built at index n.  A command built
    at index [c] has its scaled model output multiplied by
    [min(0.1 * c, 1)], which is [0.1 * c] for [c] from 1 to 9 and 1 from
    10 on. *)
Theorem startup_ramp :
  (∀ ps config verbose,
     _count (__init__ config verbose) = 1
     ∧ let '(rs, self', _) := run ps (__init__ config verbose) new_context in
       _count self' = 1 + Z.of_nat (length (commands rs)))
  ∧ (∀ now self context proto self' context',
       __call__ now self context = (Ok proto, self', context') →
       _count self' = _count self + 1
       ∧ ∃ shifted ordering,
           find_ordering ordered_joint_names_orbit ordered_joint_names_bosdyn
             = Ok ordering
           ∧ reorder shifted ordering = Ok (cmd_position proto)
           ∧ ∀ j t, shifted !! j = Some t →
               ∃ a o name d,
                 as_float (action_scale (_config self)) = Ok a
                 ∧ _last_action self' !! j = Some o
                 ∧ ordered_joint_names_orbit !! j = Some name
                 ∧ get_as_float (default_joints (_config self) !! name) = Ok d
                 ∧ t = (test_scale (_count self) * (a * o) + d)%Q)
  ∧ (∀ c,
       test_scale c = Qmin (0.1 * inject_Z c) 1
       ∧ (1 ≤ c ≤ 9 → (test_scale c == 0.1 * inject_Z c)%Q)
       ∧ (10 ≤ c → (test_scale c == 1)%Q)).
Proof.
  split; [|split].
  - intros ps config verbose. split; [done|].
    pose proof (run_counters ps (__init__ config verbose) new_context) as H.
    destruct (run ps (__init__ config verbose) new_context)
      as [[rs self'] context'].
    by destruct H as (_ & -> & _).
  - intros now self context proto self' context' Hcall.
    split; [by apply call_Ok in Hcall as (_ & ? & _)|].
    unfold onnx_command_generator.__call__ in Hcall.
    destruct (latest_state context) as [state|]; [|done].
    destruct (synthesize now (cache_init self state) context state)
      as [[p output]|e] eqn:Hs; [|done].
    injection Hcall as <- <- <-; simpl.
    apply synthesize_positions in Hs.
    by rewrite cache_init_count, cache_init_config in Hs.
  - intros c. split; [done|].
    split; [apply test_scale_ramp | apply test_scale_full].
Qed.

(** The identity rotation leaves a vector as it is. *)
Lemma inv_rotate_identity q u :
  identity_rotation q →
  ∃ r, inv_rotate q u = Ok r ∧ Forall2 Qeq r [x u; y u; z u].
Proof.
  destruct q as [w a b c], u as [ux uy uz].
  intros (Hw & Ha & Hb & Hc); simpl in *.
  unfold inv_rotate.
  assert (Hnorm : (qnorm2 {| qw := w; qx := a; qy := b; qz := c |} == 1)%Q).
  { unfold qnorm2; simpl. rewrite Hw, Ha, Hb, Hc. reflexivity. }
  destruct (Qeq_bool _ 0) eqn:Hzero.
  { apply Qeq_bool_iff in Hzero. rewrite Hnorm in Hzero. done. }
  eexists. split; [reflexivity|].
  repeat constructor; rewrite Hnorm; simpl; rewrite Hw, Ha, Hb, Hc; field.
Qed.

Lemma Forall2_Qeq_trans (l k m : list Q) :
  Forall2 Qeq l k → Forall2 Qeq k m → Forall2 Qeq l m.
Proof.
  intros Hlk Hkm. eapply Forall2_trans; [|done..].
  intros a b c Hab Hbc. by rewrite Hab.
Qed.

Lemma zeros_replicate (l : list Q) n :
  Forall (λ q, q == 0)%Q l → length l = n → Forall2 Qeq l (replicate n 0%Q).
Proof.
  intros Hl <-. induction Hl as [|q l Hq _ IH]; simpl; by constructor.
Qed.

Section at_rest.

Context (config : OrbitConfig) (state : RobotStateStreamResponse).

Hypothesis same_joints : ordered_joint_names_bosdyn ≡ₚ ordered_joint_names_orbit.

Lemma spot_to_orbit_total :
  ∃ ordering,
    find_ordering ordered_joint_names_bosdyn ordered_joint_names_orbit
      = Ok ordering
    ∧ length ordering = 12%nat.
Proof.
  destruct (find_ordering_total ordered_joint_names_bosdyn
              ordered_joint_names_orbit) as [ordering H].
  { intros name. by rewrite same_joints. }
  exists ordering. split; [done|]. by apply find_ordering_length in H.
Qed.

Lemma bosdyn_length : length ordered_joint_names_bosdyn = 12%nat.
Proof. by rewrite same_joints. Qed.

(** Joints at their neutral offsets read as zeros. *)
Lemma get_joint_positions_neutral :
  Forall2 (at_neutral config) ordered_joint_names_bosdyn
    (position (joint_states state)) →
  ∃ pos, get_joint_positions ordered_joint_names_bosdyn state config = Ok pos
         ∧ Forall (λ q, q == 0)%Q pos ∧ length pos = 12%nat.
Proof.
  intros Hneutral.
  destruct spot_to_orbit_total as (ordering & Hordering & Hlen).
  destruct (reorder_total _ _ (position (joint_states state)) _ Hordering)
    as [moved Hmoved].
  { by rewrite (Forall2_length _ _ _ Hneutral). }
  pose proof (reorder_length _ _ _ Hmoved) as Hlen_moved.
  unfold get_joint_positions. rewrite Hordering; simpl. rewrite Hmoved; simpl.
  destruct (map2_total sub (λ q, q == 0)%Q moved
              (dict_to_list (default_joints config) ordered_joint_names_orbit))
    as (pos & Hpos & Hzero & Hlen_pos).
  { apply Forall2_same_length_lookup_2.
    { unfold dict_to_list. rewrite length_fmap. by rewrite Hlen_moved, Hlen. }
    intros j p dopt Hp Hd.
    unfold dict_to_list in Hd. rewrite list_lookup_fmap in Hd.
    destruct (ordered_joint_names_orbit !! j) as [name|] eqn:Hname; [|done].
    injection Hd as <-.
    destruct (find_ordering_lookup _ _ _ _ _ Hordering Hname)
      as (i & Hi & Hidx).
    apply first_index_Some in Hidx.
    destruct (reorder_lookup _ _ _ _ _ Hmoved Hi) as [Hmoved_j _].
    rewrite Hp in Hmoved_j. symmetry in Hmoved_j.
    destruct (Forall2_lookup_lr _ _ _ _ _ _ Hneutral Hidx Hmoved_j)
      as (v & d & Hv & Hd & Hpd).
    exists (p - d)%Q. rewrite Hv. unfold sub; simpl. rewrite Hd; simpl.
    split; [done|]. rewrite Hpd. ring. }
  exists pos. split; [done|]. split; [done|]. lia.
Qed.

(** Joints that do not move read as zeros, in any order. *)
Lemma get_joint_velocity_zero :
  Forall (λ q, q == 0)%Q (velocity (joint_states state)) →
  length (velocity (joint_states state)) = 12%nat →
  ∃ vel, get_joint_velocity ordered_joint_names_bosdyn state = Ok vel
         ∧ Forall (λ q, q == 0)%Q vel ∧ length vel = 12%nat.
Proof.
  intros Hzero Hlen_v.
  destruct spot_to_orbit_total as (ordering & Hordering & Hlen).
  destruct (reorder_total _ _ (velocity (joint_states state)) _ Hordering)
    as [vel Hvel].
  { rewrite bosdyn_length. lia. }
  unfold get_joint_velocity. rewrite Hordering; simpl.
  exists vel. split; [done|].
  split; [|by rewrite (reorder_length _ _ _ Hvel)].
  apply Forall_lookup. intros j v Hv.
  unfold reorder in Hvel. apply mapM_Ok in Hvel.
  destruct (Forall2_lookup_r _ _ _ _ _ Hvel Hv) as (i & _ & Hget).
  unfold getitem in Hget. rewrite Forall_lookup in Hzero.
  repeat case_match; try done;
    match type of Hget with
    | from_option _ (?l !! ?k) = _ =>
        destruct (l !! k) as [v'|] eqn:Hk; [|done];
        injection Hget as <-; by eapply Hzero
    end.
Qed.

(** C7. On the first invocation, for a robot that is level and at rest
    with every joint at its neutral offset and a zero velocity command, the
    observation has 48 entries: zeros, except for the projected gravity
    [0, 0, -1] at positions 6 to 8. *)
Theorem first_observation_at_rest verbose context :
  zero3 (velocity_linear (kinematic_state state)) →
  zero3 (velocity_angular (kinematic_state state)) →
  identity_rotation (rotation (kinematic_state state)) →
  Forall2 (at_neutral config) ordered_joint_names_bosdyn
    (position (joint_states state)) →
  Forall (λ q, q == 0)%Q (velocity (joint_states state)) →
  length (velocity (joint_states state)) = 12%nat →
  Forall2 Qeq (velocity_cmd context) [0; 0; 0]%Q →
  ∃ obs,
    collect_inputs (__init__ config verbose) context state config = Ok obs
    ∧ length obs = 48%nat
    ∧ Forall2 Qeq obs resting_observation
    ∧ Forall2 Qeq (take 3 (drop 6 obs)) [0; 0; -1]%Q.
Proof.
  intros (Hlx & Hly & Hlz) (Hax & Hay & Haz) Hid Hneutral Hvel Hvel_len Hcmd.
  destruct (inv_rotate_identity _ (velocity_linear (kinematic_state state)) Hid)
    as (lin & Hlin & Hlin_v).
  destruct (inv_rotate_identity _ (velocity_angular (kinematic_state state)) Hid)
    as (ang & Hang & Hang_v).
  destruct (inv_rotate_identity _ {| x := 0; y := 0; z := -1 |} Hid)
    as (grav & Hgrav & Hgrav_v).
  destruct (get_joint_positions_neutral Hneutral) as (pos & Hpos & Hpos0 & Hpos_len).
  destruct (get_joint_velocity_zero Hvel Hvel_len) as (vel & Hv & Hv0 & Hv_len).
  unfold onnx_command_generator.collect_inputs, get_base_linear_velocity,
    get_base_angular_velocity, get_projected_gravity.
  rewrite Hlin, Hang, Hgrav; simpl. rewrite Hpos, Hv; simpl.
  eexists. split; [reflexivity|].
  assert (Hobs : Forall2 Qeq
            (lin ++ ang ++ grav ++ velocity_cmd context ++ pos ++ vel
             ++ replicate 12 0%Q)
            ([0; 0; 0] ++ [0; 0; 0] ++ [0; 0; -1] ++ [0; 0; 0]
             ++ replicate 12 0 ++ replicate 12 0 ++ replicate 12 0)%Q).
  { repeat apply Forall2_app; try done.
    - eapply Forall2_Qeq_trans; [done|]. by repeat constructor.
    - eapply Forall2_Qeq_trans; [done|]. by repeat constructor.
    - by apply zeros_replicate.
    - by apply zeros_replicate. }
  simpl in Hobs.
  split; [by rewrite (Forall2_length _ _ _ Hobs)|]. split; [done|].
  apply Forall2_length in Hlin_v, Hang_v.
  destruct lin as [|? [|? [|? [|]]]]; try done.
  destruct ang as [|? [|? [|? [|]]]]; try done.
  pose proof (Forall2_length _ _ _ Hgrav_v) as Hgrav_len.
  destruct grav as [|? [|? [|? [|]]]]; done.
Qed.

End at_rest.

End generator_facts.

(** * The sample session, run *)

Section sample_runs.

Import sample.

#[local] Open Scope string_scope.

#[local] Abbreviation run := (run ordered_joint_names_bosdyn infer).
#[local] Abbreviation create_proto_hold :=
  (create_proto_hold DEFAULT_K_Q_P DEFAULT_K_QD_P).

(** Three commands in a row: keys 1, 2, 3, gains on the first only, and the
    ramp at 0.1, 0.2, 0.3 of the scaled output 0.2 * 0.5 (first joint, whose
    neutral offset is 0.1). *)
Example three_commands :
  let '(rs, self', context') :=
    run [at_rest 1; at_rest 2; at_rest 3]
        (__init__ (loaded complete_config) false) new_context in
  user_command_key <$> commands rs = [1; 2; 3]
  ∧ (length ∘ k_q_p) <$> commands rs = [12; 0; 0]%nat
  ∧ (λ c, default 0%Q (cmd_position c !! 0%nat)) <$> commands rs
    = [0.1 * (0.2 * 0.5) + 0.1; 0.2 * (0.2 * 0.5) + 0.1;
       0.3 * (0.2 * 0.5) + 0.1]%Q
  ∧ count context' = 3 ∧ _count self' = 4.
Proof. vm_compute. by repeat split. Qed.

(** In [front_only_config] the only actuator pattern is ["f"], which does
    not match the hind left hip. *)
Lemma hind_joint_unmatched :
  unmatched literal_re (JObj [("front", group "f" 60 1.5)]) "hl_hx".
Proof.
  intros grp g exprs pattern regex Hg Hexprs Hpattern Hre.
  simpl in Hg. case_decide; [|done]. injection Hg as <-.
  injection Hexprs as <-. injection Hpattern as <-.
  unfold literal_re in Hre. injection Hre as <-. reflexivity.
Qed.

Lemma load_configuration_checks_keys_only_witness :
  raises (load_configuration literal_re no_actions_config)
  ∧ kp (loaded front_only_config) !! "hl_hx" = Some JNull
  ∧ kd (loaded front_only_config) !! "hl_hx" = Some JNull.
Proof.
  split.
  - apply (proj1 (load_configuration_checks_keys_only literal_re
                    no_actions_config)).
    intros (? & ? & ? & ? & ? & ? & actions & ? & ? & ? & _ & _ & _ & _
            & _ & _ & _ & Hactions & _).
    vm_compute in Hactions. discriminate.
  - apply (proj2 (load_configuration_checks_keys_only literal_re
                    front_only_config)
             (loaded front_only_config)
             (JObj [("front", group "f" 60 1.5)]) "hl_hx").
    + reflexivity.
    + reflexivity.
    + apply (bool_decide_unpack _). vm_compute. exact I.
    + apply hind_joint_unmatched.
Defined.

(** C3, as stated, fails: with the hind legs matched by no actuator pattern
    the loader raises nothing and returns a configuration whose hind joints
    hold the [None] placeholder. *)
Lemma load_configuration_keeps_placeholders :
  actuators_of front_only_config = Ok (JObj [("front", group "f" 60 1.5)])
  ∧ unmatched literal_re (JObj [("front", group "f" 60 1.5)]) "hl_hx"
  ∧ load_configuration literal_re front_only_config
    = Ok (loaded front_only_config)
  ∧ ¬ raises (load_configuration literal_re front_only_config)
  ∧ dict_to_list (kp (loaded front_only_config)) ordered_joint_names_orbit
    = [ Some (JNum 60); Some (JNum 60); Some JNull; Some JNull;
        Some (JNum 60); Some (JNum 60); Some JNull; Some JNull;
        Some (JNum 60); Some (JNum 60); Some JNull; Some JNull ]
  ∧ dict_to_list (kd (loaded front_only_config)) ordered_joint_names_orbit
    = [ Some (JNum 1.5); Some (JNum 1.5); Some JNull; Some JNull;
        Some (JNum 1.5); Some (JNum 1.5); Some JNull; Some JNull;
        Some (JNum 1.5); Some (JNum 1.5); Some JNull; Some JNull ].
Proof.
  split; [reflexivity|]. split; [apply hind_joint_unmatched|].
  split; [reflexivity|]. split; [|split; by vm_compute].
  intros [e He]. vm_compute in He. discriminate.
Qed.

Lemma gains_at_cycle_index_one_witness :
  let '(rs, self', context') :=
    run [at_rest 1] (__init__ (loaded complete_config) false) new_context in
  ∀ c, create_proto_hold 2 self' context' = Ok c →
       if decide (commands rs = []) then
         k_q_p c = take 12 DEFAULT_K_Q_P ∧ k_qd_p c = take 12 DEFAULT_K_QD_P
       else no_gains c.
Proof.
  pose proof (proj1 (gains_at_cycle_index_one ordered_joint_names_bosdyn
                       DEFAULT_K_Q_P DEFAULT_K_QD_P infer)
                [at_rest 1] (loaded complete_config) false) as H.
  destruct (run [at_rest 1] (__init__ (loaded complete_config) false)
              new_context) as [[rs self'] context'].
  intros c Hc. exact (proj2 H 2%Q context' c Hc).
Defined.

(** C4, as stated, fails for hold commands.  A call that raises after the
    initial pose is cached (here: the hind joints have no neutral offset)
    leaves the cycle index at 1; the hold commands built from then on all
    carry the gains, the second as much as the first. *)
Lemma hold_commands_repeat_gains :
  let '(rs, self', context') :=
    run [at_rest 1] (__init__ (loaded front_only_config) false) new_context in
  rs = [Raise TypeError]
  ∧ _count self' = 1
  ∧ ∃ c1 c2,
      create_proto_hold 2 self' context' = Ok c1
      ∧ create_proto_hold 3 self' context' = Ok c2
      ∧ k_q_p c1 = DEFAULT_K_Q_P ∧ k_qd_p c1 = DEFAULT_K_QD_P
      ∧ k_q_p c2 = DEFAULT_K_Q_P ∧ k_qd_p c2 = DEFAULT_K_QD_P
      ∧ ¬ no_gains c2.
Proof.
  vm_compute. split; [done|]. split; [done|].
  eexists _, _. split; [reflexivity|]. split; [reflexivity|].
  repeat (split; [reflexivity|]). by intros [[=] _].
Qed.

(** The ramp on IEEE doubles for the first twelve cycles: the tenth product
    [0.1 * 10] is exactly 1. *)
Example test_scale_binary64 :
  binary64.test_scale <$> seqZ 1 12
  = [ 0.1; 0.2; 0.30000000000000004; 0.4; 0.5; 0.60000000000000009;
      0.70000000000000007; 0.8; 0.9; 1; 1; 1 ]%float.
Proof. by vm_compute. Qed.

Lemma startup_ramp_witness : (test_scale 3 == 0.1 * inject_Z 3)%Q.
Proof.
  apply (proj2 (proj2 (startup_ramp ordered_joint_names_bosdyn infer)) 3).
  lia.
Defined.

Lemma first_observation_at_rest_witness :
  ∃ obs,
    collect_inputs ordered_joint_names_bosdyn
      (__init__ (loaded complete_config) false)
      (publish (at_rest 1) new_context) resting (loaded complete_config)
    = Ok obs
    ∧ length obs = 48%nat
    ∧ Forall2 Qeq obs resting_observation
    ∧ Forall2 Qeq (take 3 (drop 6 obs)) [0; 0; -1]%Q.
Proof.
  apply first_observation_at_rest.
  - apply (bool_decide_unpack _). vm_compute. exact I.
  - by repeat split.
  - by repeat split.
  - by repeat split.
  - repeat constructor;
      (eexists _, _; split; [vm_compute; reflexivity|];
       split; reflexivity).
  - repeat constructor.
  - reflexivity.
  - by repeat constructor.
Defined.

End sample_runs.

(** * Further properties of the joystick curve *)

Section gamepad_curve_facts.

Import gamepad.

#[local] Open Scope Q_scope.

Lemma clip_mono a a' lo hi : a <= a' → clip a lo hi <= clip a' lo hi.
Proof.
  intros H. unfold clip.
  apply Q.min_le_compat_l. by apply Q.max_le_compat_r.
Qed.

(** X1. A sample inside the deadband is answered with exactly 0, whatever the
    shaping bounds are. *)
Theorem apply_curve_deadband value cfg :
  Qabs (oriented value cfg) < deadband cfg → _apply_curve value cfg = 0.
Proof.
  intros H. unfold _apply_curve, oriented in *.
  destruct (Qlt_le_dec _ _) as [_|H']; [done|]. lra.
Qed.

Lemma apply_curve_deadband_witness :
  _apply_curve (-0.15) x_axis_config = 0.
Proof. apply apply_curve_deadband. reflexivity. Defined.

(** The three branches of the curve, by the oriented sample. *)
Lemma apply_curve_cases value cfg :
  (Qabs (oriented value cfg) < deadband cfg ∧ _apply_curve value cfg = 0)
  ∨ (0 < oriented value cfg ∧ deadband cfg <= oriented value cfg
     ∧ _apply_curve value cfg =
       clip ((max_forward_dir cfg - min_forward_dir cfg) / (1 - deadband cfg)
             * oriented value cfg
             + (max_forward_dir cfg
                - (max_forward_dir cfg - min_forward_dir cfg)
                  / (1 - deadband cfg)))
            (min_forward_dir cfg) (max_forward_dir cfg))
  ∨ (oriented value cfg <= 0 ∧ deadband cfg <= - oriented value cfg
     ∧ _apply_curve value cfg =
       clip ((max_reverse_dir cfg - min_reverse_dir cfg) / (1 - deadband cfg)
             * oriented value cfg
             + (max_reverse_dir cfg
                - (max_reverse_dir cfg - min_reverse_dir cfg)
                  / (1 - deadband cfg)))
            (- max_reverse_dir cfg) (- min_reverse_dir cfg)).
Proof.
  unfold _apply_curve, oriented.
  set (x := if inverted cfg then - value else value).
  destruct (Qlt_le_dec (Qabs x) (deadband cfg)) as [Hd|Hd]; [by left|right].
  destruct (Qlt_le_dec 0 x) as [Hx|Hx]; [left|right].
  - rewrite Qabs_pos in Hd by lra. done.
  - rewrite Qabs_neg in Hd by lra. done.
Qed.

(** X2. Whatever the sample, the output is 0 or lies within the bounds of the
    side the stick points to: the clamp never lets it out. *)
Theorem apply_curve_range value cfg :
  min_forward_dir cfg <= max_forward_dir cfg →
  min_reverse_dir cfg <= max_reverse_dir cfg →
  _apply_curve value cfg = 0
  ∨ (0 < oriented value cfg
     ∧ min_forward_dir cfg <= _apply_curve value cfg <= max_forward_dir cfg)
  ∨ (oriented value cfg <= 0
     ∧ - max_reverse_dir cfg <= _apply_curve value cfg <= - min_reverse_dir cfg).
Proof.
  intros Hf Hr.
  destruct (apply_curve_cases value cfg)
    as [[_ ->]|[(Hx & _ & ->)|(Hx & _ & ->)]]; [by left|right; left|right; right].
  - split; [done|]. by apply clip_bounds.
  - split; [done|]. apply clip_bounds. lra.
Qed.

Lemma apply_curve_range_witness :
  _apply_curve 5 x_axis_config = 0
  ∨ (0 < oriented 5 x_axis_config
     ∧ min_forward_dir x_axis_config <= _apply_curve 5 x_axis_config
       <= max_forward_dir x_axis_config)
  ∨ (oriented 5 x_axis_config <= 0
     ∧ - max_reverse_dir x_axis_config <= _apply_curve 5 x_axis_config
       <= - min_reverse_dir x_axis_config).
Proof. apply apply_curve_range; vm_compute; congruence. Defined.

Lemma slope_nonneg lo hi db : db < 1 → lo <= hi → 0 <= (hi - lo) / (1 - db).
Proof. intros Hdb Hle. apply Qle_shift_div_l; lra. Qed.

(** X3. With a deadband below 1 and bounds [0 <= min <= max] on both sides, the
    output never decreases when the oriented sample grows: over the reverse
    side, the deadband and the forward side together. *)
Theorem apply_curve_monotone value value' cfg :
  deadband cfg < 1 →
  0 <= min_forward_dir cfg → min_forward_dir cfg <= max_forward_dir cfg →
  0 <= min_reverse_dir cfg → min_reverse_dir cfg <= max_reverse_dir cfg →
  oriented value cfg <= oriented value' cfg →
  _apply_curve value cfg <= _apply_curve value' cfg.
Proof.
  intros Hdb Hf0 Hf Hr0 Hr Hle.
  pose proof (slope_nonneg _ _ _ Hdb Hf) as Hsf.
  pose proof (slope_nonneg _ _ _ Hdb Hr) as Hsr.
  assert (Hfwd : ∀ a, min_forward_dir cfg
                      <= clip a (min_forward_dir cfg) (max_forward_dir cfg)).
  { intros a. by apply clip_bounds. }
  assert (Hrev : ∀ a, clip a (- max_reverse_dir cfg) (- min_reverse_dir cfg)
                      <= - min_reverse_dir cfg).
  { intros a. apply clip_bounds. lra. }
  destruct (apply_curve_cases value cfg)
    as [[Hd ->]|[(Hx & Hd & ->)|(Hx & Hd & ->)]];
  destruct (apply_curve_cases value' cfg)
    as [[Hd' ->]|[(Hx' & Hd' & ->)|(Hx' & Hd' & ->)]].
  - lra.
  - specialize (Hfwd ((max_forward_dir cfg - min_forward_dir cfg)
                      / (1 - deadband cfg) * oriented value' cfg
                      + (max_forward_dir cfg
                         - (max_forward_dir cfg - min_forward_dir cfg)
                           / (1 - deadband cfg)))). lra.
  - exfalso. destruct (Qlt_le_dec (oriented value cfg) 0).
    + rewrite Qabs_neg in Hd by lra. lra.
    + rewrite Qabs_pos in Hd by lra. lra.
  - exfalso. rewrite Qabs_pos in Hd' by lra. lra.
  - apply clip_mono. nra.
  - lra.
  - specialize (Hrev ((max_reverse_dir cfg - min_reverse_dir cfg)
                      / (1 - deadband cfg) * oriented value cfg
                      + (max_reverse_dir cfg
                         - (max_reverse_dir cfg - min_reverse_dir cfg)
                           / (1 - deadband cfg)))). lra.
  - eapply Qle_trans; [apply Hrev|]. eapply Qle_trans; [|apply Hfwd]. lra.
  - apply clip_mono. nra.
Qed.

Lemma apply_curve_monotone_witness :
  _apply_curve 0.9 x_axis_config <= _apply_curve (-0.3) x_axis_config.
Proof. apply apply_curve_monotone; vm_compute; congruence. Defined.

End gamepad_curve_facts.

(** * Properties of the median filter *)

Section median_facts.

Import gamepad.

#[local] Open Scope Q_scope.

#[local] Instance Qle_total : Total Qle.
Proof. intros a b. destruct (Qlt_le_dec a b); [left; lra | by right]. Qed.

#[local] Instance Qle_transitive : Transitive Qle := Qle_trans.

Lemma occurrences_app v l k :
  occurrences v (l ++ k) = (occurrences v l + occurrences v k)%nat.
Proof. unfold occurrences. by rewrite filter_app, length_app. Qed.

Lemma occurrences_le v l : (occurrences v l ≤ length l)%nat.
Proof. apply length_filter. Qed.

Lemma occurrences_none v l : Forall (λ q, ¬ q == v) l → occurrences v l = 0%nat.
Proof.
  unfold occurrences. induction 1 as [|q l Hq _ IH]; [done|].
  by rewrite filter_cons_False.
Qed.

Lemma occurrences_replicate v n : occurrences v (replicate n v) = n.
Proof.
  unfold occurrences. induction n as [|n IH]; [done|]. simpl.
  rewrite filter_cons_True by reflexivity. simpl. by rewrite IH.
Qed.

Lemma occurrences_Permutation v l k :
  l ≡ₚ k → occurrences v l = occurrences v k.
Proof. intros H. unfold occurrences. by rewrite H. Qed.

(** In a sorted list everything before a position is below its entry and
    everything after it above. *)
Lemma StronglySorted_lookup (s : list Q) : ∀ i a,
  StronglySorted Qle s → s !! i = Some a →
  Forall (λ b, b <= a) (take i s) ∧ Forall (λ b, a <= b) (drop i s).
Proof.
  induction s as [|b s IH]; intros i a Hs Hi; [done|].
  apply StronglySorted_inv in Hs as [Hs Hb].
  destruct i as [|i]; simpl in *.
  - injection Hi as ->. split; [constructor|].
    constructor; [lra | done].
  - destruct (IH i a Hs Hi) as [Hbefore Hafter]. split; [|done].
    constructor; [|done].
    rewrite Forall_forall in Hb. apply Hb. by eapply list_elem_of_lookup_2.
Qed.

(** An entry of a sorted list that has fewer entries before it, and fewer
    after it, than there are copies of [v], is a copy of [v]. *)
Lemma sorted_majority (s : list Q) v i a :
  StronglySorted Qle s → s !! i = Some a →
  (i < occurrences v s)%nat → (length s - S i < occurrences v s)%nat →
  a == v.
Proof.
  intros Hs Hi Hbefore Hafter.
  destruct (StronglySorted_lookup s i a Hs Hi) as [Hlow Hhigh].
  destruct (Q_dec a v) as [[Hlt|Hgt]|Heq]; [| |done]; exfalso.
  - rewrite <- (take_drop (S i) s), occurrences_app in Hafter.
    rewrite (occurrences_none v (take (S i) s)) in Hafter.
    + pose proof (occurrences_le v (drop (S i) s)) as Hle.
      rewrite length_drop in Hle. rewrite take_drop in Hafter. lia.
    + rewrite (take_S_r s i a Hi). apply Forall_app. split.
      * eapply Forall_impl; [exact Hlow|]. intros b Hb Hbv. simpl in *. lra.
      * constructor; [|constructor]. lra.
  - rewrite <- (take_drop i s), occurrences_app in Hbefore.
    rewrite (occurrences_none v (drop i s)) in Hbefore.
    + pose proof (occurrences_le v (take i s)) as Hle.
      rewrite length_take in Hle. lia.
    + eapply Forall_impl; [exact Hhigh|]. intros b Hb Hbv. simpl in *. lra.
Qed.

(** X4. When more than half of the values are copies of [v], the median is [v]:
    a minority of outliers never shows in the output. *)
Theorem median_majority values v :
  (length values < 2 * occurrences v values)%nat →
  ∃ m, median values = Some m ∧ m == v.
Proof.
  intros Hmajor. unfold median.
  pose proof (occurrences_le v values) as Hle.
  pose proof (StronglySorted_merge_sort Qle values) as Hs.
  pose proof (merge_sort_Permutation Qle values) as Hperm.
  pose proof (Permutation_length Hperm) as Hlen.
  rewrite <- (occurrences_Permutation v _ _ Hperm) in Hmajor, Hle.
  set (s := merge_sort Qle values) in *.
  set (n := length values) in *.
  clearbody s n.
  destruct (decide (n = 0%nat)) as [Hn|Hn]; [lia|].
  destruct (Nat.odd n) eqn:Hodd.
  - apply Nat.odd_spec in Hodd as [h Hh].
    assert (Hhalf : (n / 2 = h)%nat).
    { symmetry. apply (Nat.div_unique n 2 h 1); lia. }
    rewrite Hhalf.
    destruct (lookup_lt_is_Some_2 s h) as [a Ha]; [lia|].
    exists a. split; [done|].
    apply (sorted_majority s v h a Hs Ha); lia.
  - assert (Heven : Nat.even n = true) by (by rewrite <- Nat.negb_odd, Hodd).
    apply Nat.even_spec in Heven as [h Hh].
    assert (Hhalf : (n / 2 = h)%nat).
    { symmetry. apply (Nat.div_unique n 2 h 0); lia. }
    rewrite Hhalf.
    destruct (lookup_lt_is_Some_2 s (h - 1)%nat) as [lo Hlo]; [lia|].
    destruct (lookup_lt_is_Some_2 s h) as [hi Hhi]; [lia|].
    rewrite Hlo, Hhi; simpl. eexists. split; [reflexivity|].
    assert (lo == v) as ->
      by (apply (sorted_majority s v (h - 1)%nat lo Hs Hlo); lia).
    assert (hi == v) as ->
      by (apply (sorted_majority s v h hi Hs Hhi); lia).
    field.
Qed.

Lemma median_majority_witness :
  ∃ m, median [0.5; 7; 0.5; 0.5; -3] = Some m ∧ m == 0.5.
Proof. apply median_majority. vm_compute. lia. Defined.

(** X5. A buffer of odd size that holds one outlier among equal values gives the
    common value, wherever the outlier sits. *)
Theorem median_rejects_one_outlier values outlier common k :
  (1 ≤ k)%nat →
  values ≡ₚ outlier :: replicate (2 * k) common →
  ∃ m, median values = Some m ∧ m == common.
Proof.
  intros Hk Hperm. apply median_majority.
  rewrite (Permutation_length Hperm), (occurrences_Permutation _ _ _ Hperm).
  change (outlier :: replicate (2 * k) common)
    with ([outlier] ++ replicate (2 * k) common).
  rewrite occurrences_app, occurrences_replicate, length_app, length_replicate.
  simpl. lia.
Qed.

Lemma median_rejects_one_outlier_witness :
  ∃ m, median [0.25; 0.25; 1; 0.25; 0.25] = Some m ∧ m == 0.25.
Proof.
  apply (median_rejects_one_outlier _ 1 0.25 2); [lia|].
  symmetry. apply (Permutation_cons_app [0.25; 0.25] [0.25; 0.25] 1).
  reflexivity.
Defined.

End median_facts.

(** * Properties of the polling loop *)

Section listen_facts.

Import gamepad.

#[local] Open Scope Q_scope.

Lemma deque_append_full {A} w (buffer : list A) a :
  length buffer = w → length (deque_append w buffer a) = w.
Proof.
  intros Hlen. unfold deque_append.
  rewrite decide_False by lia.
  rewrite length_drop, length_app. simpl. lia.
Qed.

(** Appending [v] to a full buffer that ends in [j] copies of [v] gives a
    full buffer that ends in one more copy, up to the size of the buffer. *)
Lemma deque_append_suffix w pre j (v : Q) :
  length (pre ++ replicate j v) = w →
  ∃ pre', deque_append w (pre ++ replicate j v) v
          = pre' ++ replicate (Nat.min (S j) w) v.
Proof.
  intros Hlen. unfold deque_append. rewrite decide_False by lia.
  rewrite length_app, length_replicate in Hlen.
  destruct pre as [|p pre].
  - exists []. simpl in Hlen.
    replace (Nat.min (S j) w) with j by lia.
    by rewrite !app_nil_l, <- replicate_S_end.
  - exists pre. rewrite length_cons in Hlen.
    replace (Nat.min (S j) w) with (S j) by lia.
    by rewrite <- (assoc_L (++)), <- replicate_S_end.
Qed.

Lemma listen_S k get_axis self :
  listen (replicate (S k) get_axis) self
  = listen_pass get_axis (listen (replicate k get_axis) self).
Proof. unfold listen. by rewrite replicate_S_end, foldl_snoc. Qed.

Lemma listen_config readings : ∀ self,
  _config (listen readings self) = _config self.
Proof.
  unfold listen. induction readings as [|g readings IH]; intros self; [done|].
  simpl. by rewrite IH.
Qed.

(** X6. The deques never change size: after any number of passes each of the
    three buffers holds exactly as many samples as the window says, as it
    did when the gamepad was built. *)
Theorem listen_keeps_buffers_full config self readings :
  __init__ config = Ok self →
  buffers_full self
  ∧ buffers_full (listen readings self)
  ∧ _config (listen readings self) = config.
Proof.
  unfold __init__. destruct (Z.ltb_spec (median_filter_window config) 0);
    [done|]. intros [= <-].
  assert (Hinit : buffers_full
            {| x_vel := Some 0; y_vel := Some 0; yaw := Some 0;
               _config := config;
               _x_buffer := replicate (Z.to_nat (median_filter_window config)) 0;
               _y_buffer := replicate (Z.to_nat (median_filter_window config)) 0;
               _yaw_buffer := replicate (Z.to_nat (median_filter_window config)) 0
            |}).
  { unfold buffers_full; simpl. by rewrite !length_replicate. }
  split; [done|]. rewrite listen_config. split; [|done].
  revert Hinit. generalize {| x_vel := Some 0; y_vel := Some 0; yaw := Some 0;
               _config := config;
               _x_buffer := replicate (Z.to_nat (median_filter_window config)) 0;
               _y_buffer := replicate (Z.to_nat (median_filter_window config)) 0;
               _yaw_buffer := replicate (Z.to_nat (median_filter_window config)) 0
            |}.
  unfold listen. induction readings as [|g readings IH]; intros g0 Hfull; [done|].
  simpl. apply IH. destruct Hfull as (Hx & Hy & Hyaw).
  unfold buffers_full, listen_pass; simpl.
  by rewrite !deque_append_full.
Qed.

Lemma listen_keeps_buffers_full_witness :
  ∃ self, __init__ default_config = Ok self
  ∧ buffers_full (listen [λ _, 1; λ _, 0.5; λ _, -1] self).
Proof.
  eexists. split; [reflexivity|].
  eapply (listen_keeps_buffers_full default_config). reflexivity.
Defined.

Section one_axis.

(** One of the three filters: its buffer, its axis and its output. *)
Context (buffer : Gamepad → list Q) (axis : GamepadConfig → AxisConfig)
        (output : Gamepad → option Q).

Hypothesis pass_buffer : ∀ get_axis self,
  buffer (listen_pass get_axis self)
  = deque_append (Z.to_nat (median_filter_window (_config self))) (buffer self)
      (_apply_curve (get_axis (index (axis (_config self))))
                    (axis (_config self))).

Hypothesis pass_output : ∀ get_axis self,
  output (listen_pass get_axis self) = median (buffer (listen_pass get_axis self)).

Lemma listen_suffix get_axis self k :
  length (buffer self) = Z.to_nat (median_filter_window (_config self)) →
  length (buffer (listen (replicate k get_axis) self))
    = Z.to_nat (median_filter_window (_config self))
  ∧ ∃ pre,
      buffer (listen (replicate k get_axis) self)
      = pre ++ replicate (Nat.min k (Z.to_nat (median_filter_window (_config self))))
                 (_apply_curve (get_axis (index (axis (_config self))))
                               (axis (_config self))).
Proof.
  intros Hfull. induction k as [|k [IHlen [pre IH]]].
  - split; [done|]. exists (buffer self). by rewrite app_nil_r.
  - rewrite listen_S, pass_buffer, listen_config.
    split; [by apply deque_append_full|].
    rewrite IH in IHlen |- *.
    destruct (deque_append_suffix _ _ _ _ IHlen) as [pre' ->].
    exists pre'. f_equal. f_equal. lia.
Qed.

(** After [k] passes with the same reading, [k] being more than half of
    the window, the filter outputs the shaped reading. *)
Lemma listen_settles_axis get_axis self k :
  length (buffer self) = Z.to_nat (median_filter_window (_config self)) →
  (0 < median_filter_window (_config self))%Z →
  (median_filter_window (_config self) < 2 * Z.of_nat k)%Z →
  ∃ m, output (listen (replicate k get_axis) self) = Some m
       ∧ m == _apply_curve (get_axis (index (axis (_config self))))
                           (axis (_config self)).
Proof.
  intros Hfull Hpos Hk.
  destruct (listen_suffix get_axis self k Hfull) as [Hlen [pre Hpre]].
  destruct k as [|k]; [lia|].
  rewrite listen_S, pass_output, <- listen_S.
  apply median_majority. rewrite Hlen, Hpre, occurrences_app.
  rewrite occurrences_replicate. lia.
Qed.

End one_axis.

(** X7. When the joystick holds still for more than half a window of passes,
    the velocity command is the shaped reading on all three axes, whatever
    the buffers held before. *)
Theorem listen_settles get_axis self k :
  buffers_full self →
  (0 < median_filter_window (_config self))%Z →
  (median_filter_window (_config self) < 2 * Z.of_nat k)%Z →
  ∃ vx vy vyaw,
    velocity_cmd (listen (replicate k get_axis) self)
    = [Some vx; Some vy; Some vyaw]
    ∧ vx == _apply_curve (get_axis (index (x_axis (_config self))))
                         (x_axis (_config self))
    ∧ vy == _apply_curve (get_axis (index (y_axis (_config self))))
                         (y_axis (_config self))
    ∧ vyaw == _apply_curve (get_axis (index (yaw_axis (_config self))))
                           (yaw_axis (_config self)).
Proof.
  intros (Hx & Hy & Hyaw) Hpos Hk.
  destruct (listen_settles_axis _x_buffer x_axis x_vel
              (λ _ _, eq_refl) (λ _ _, eq_refl) get_axis self k Hx Hpos Hk)
    as (vx & Hvx & ?).
  destruct (listen_settles_axis _y_buffer y_axis y_vel
              (λ _ _, eq_refl) (λ _ _, eq_refl) get_axis self k Hy Hpos Hk)
    as (vy & Hvy & ?).
  destruct (listen_settles_axis _yaw_buffer yaw_axis yaw
              (λ _ _, eq_refl) (λ _ _, eq_refl) get_axis self k Hyaw Hpos Hk)
    as (vyaw & Hvyaw & ?).
  exists vx, vy, vyaw. unfold velocity_cmd. by rewrite Hvx, Hvy, Hvyaw.
Qed.

Lemma listen_settles_witness :
  ∃ vx vy vyaw,
    velocity_cmd
      (listen (replicate 6 (λ _, 1))
         {| x_vel := Some 0; y_vel := Some 0; yaw := Some 0;
            _config := default_config;
            _x_buffer := replicate 10 0.3; _y_buffer := replicate 10 0;
            _yaw_buffer := replicate 10 (-1) |})
    = [Some vx; Some vy; Some vyaw]
    ∧ vx == _apply_curve 1 x_axis_config
    ∧ vy == _apply_curve 1 y_axis_config
    ∧ vyaw == _apply_curve 1 yaw_axis_config.
Proof.
  apply (listen_settles (λ _, 1)
           {| x_vel := Some 0; y_vel := Some 0; yaw := Some 0;
              _config := default_config;
              _x_buffer := replicate 10 0.3; _y_buffer := replicate 10 0;
              _yaw_buffer := replicate 10 (-1) |} 6).
  - by repeat split.
  - reflexivity.
  - reflexivity.
Defined.

End listen_facts.

(** * Further properties of the dictionary and reordering helpers *)

Section dict_tools_more.

Context `{EqDecision K} {V : Type}.

Lemma mapM_Raise {A B} (f : A → result B) l e :
  mapM f l = Raise e → ∃ a, a ∈ l ∧ f a = Raise e.
Proof.
  induction l as [|a l IH]; simpl; [done|].
  destruct (f a) as [b|e'] eqn:Hfa; simpl.
  - destruct (mapM f l) as [k|e'']; simpl; [done|].
    intros [= ->]. destruct IH as (a' & ? & ?); [done|].
    exists a'. split; [by right | done].
  - intros [= ->]. exists a. split; [by left | done].
Qed.

Lemma index_Raise (l : list K) key e :
  index l key = Raise e → e = ValueError ∧ key ∉ l.
Proof.
  unfold index. destruct (first_index l key) as [i|] eqn:Hi; [done|].
  intros [= <-]. split; [done|]. intros Hin.
  apply first_index_elem_of in Hin as [i Hi']. congruence.
Qed.

(** X9. [find_ordering] succeeds exactly when every value of [output] occurs in
    [input]; otherwise it raises [ValueError], and nothing else. *)
Theorem find_ordering_result (input output : list K) :
  match find_ordering input output with
  | Ok ordering => output ⊆ input ∧ length ordering = length output
  | Raise e => e = ValueError ∧ ∃ key, key ∈ output ∧ key ∉ input
  end.
Proof.
  destruct (find_ordering input output) as [ordering|e] eqn:Hfind.
  - split; [|by eapply find_ordering_length].
    intros key [j Hj]%list_elem_of_lookup.
    destruct (find_ordering_lookup _ _ _ _ _ Hfind Hj) as (i & _ & Hi).
    apply first_index_Some in Hi. by eapply list_elem_of_lookup_2.
  - apply mapM_Raise in Hfind as (key & Hkey & Hidx).
    apply index_Raise in Hidx as [-> Hnot]. split; [done|]. by exists key.
Qed.

(** X10. The ordering [find_ordering] computes does what its name says: used on
    [input] it produces [output], also when values repeat. *)
Theorem reorder_find_ordering (input output : list K) ordering :
  find_ordering input output = Ok ordering →
  reorder input ordering = Ok output.
Proof.
  unfold find_ordering, reorder. rewrite !mapM_Ok. intros HF.
  apply Forall2_flip. eapply Forall2_impl; [exact HF|].
  intros key z Hidx. simpl. unfold index in Hidx.
  destruct (first_index input key) as [i|] eqn:Hi; [|done].
  injection Hidx as <-. apply first_index_Some in Hi.
  by rewrite getitem_of_nat, Hi.
Qed.

Lemma getitem_Ok (l : list V) i a :
  getitem l i = Ok a →
  - Z.of_nat (length l) ≤ i < Z.of_nat (length l)
  ∧ l !! Z.to_nat (i `mod` Z.of_nat (length l)) = Some a.
Proof.
  unfold getitem.
  destruct (Z.leb_spec 0 i).
  - destruct (l !! Z.to_nat i) as [a'|] eqn:Hi; [|done]. intros [= <-].
    pose proof (lookup_lt_Some _ _ _ Hi). split; [lia|].
    by rewrite Z.mod_small by lia.
  - destruct (Z.leb_spec (- Z.of_nat (length l)) i); [|done].
    destruct (l !! Z.to_nat (Z.of_nat (length l) + i)) as [a'|] eqn:Hi; [|done].
    intros [= <-]. split; [lia|].
    replace (i `mod` Z.of_nat (length l)) with (Z.of_nat (length l) + i); [done|].
    apply (Z.mod_unique_pos _ _ (-1)); lia.
Qed.

Lemma getitem_Raise (l : list V) i e :
  getitem l i = Raise e →
  e = IndexError ∧ ¬ (- Z.of_nat (length l) ≤ i < Z.of_nat (length l)).
Proof.
  unfold getitem.
  destruct (Z.leb_spec 0 i).
  - destruct (l !! Z.to_nat i) as [a'|] eqn:Hi; [done|]. intros [= <-].
    apply lookup_ge_None in Hi. split; [done | lia].
  - destruct (Z.leb_spec (- Z.of_nat (length l)) i).
    + destruct (l !! Z.to_nat (Z.of_nat (length l) + i)) as [a'|] eqn:Hi; [done|].
      apply lookup_ge_None in Hi. lia.
    + intros [= <-]. split; [done | lia].
Qed.

(** X11. [reorder] returns one element per entry of the ordering, reading
    entry [i] at position [i mod len(inputs)], so that negative entries count
    from the end; it raises, and then [IndexError], exactly when an entry
    lies outside [-len(inputs) .. len(inputs) - 1]. *)
Theorem reorder_result (inputs : list V) (ordering : list Z) :
  match reorder inputs ordering with
  | Ok moved =>
      length moved = length ordering
      ∧ ∀ j i, ordering !! j = Some i →
          - Z.of_nat (length inputs) ≤ i < Z.of_nat (length inputs)
          ∧ moved !! j = inputs !! Z.to_nat (i `mod` Z.of_nat (length inputs))
  | Raise e =>
      e = IndexError
      ∧ ∃ i, i ∈ ordering
             ∧ ¬ (- Z.of_nat (length inputs) ≤ i < Z.of_nat (length inputs))
  end.
Proof.
  destruct (reorder inputs ordering) as [moved|e] eqn:Hre.
  - split; [by eapply reorder_length|]. intros j i Hj.
    unfold reorder in Hre. apply mapM_Ok in Hre.
    destruct (Forall2_lookup_l _ _ _ _ _ Hre Hj) as (a & Ha & Hget).
    apply getitem_Ok in Hget as [? Hget]. by rewrite Ha, Hget.
  - apply mapM_Raise in Hre as (i & Hi & Hget).
    apply getitem_Raise in Hget as [-> ?]. split; [done|]. by exists i.
Qed.

End dict_tools_more.

Lemma reorder_find_ordering_witness :
  reorder ["a"; "b"; "a"]%string [1; 0; 0; 1]
  = Ok ["b"; "a"; "a"; "b"]%string.
Proof. by apply reorder_find_ordering. Defined.

Section dict_round_trip.

Context {V : Type}.

Lemma foldl_insert_other (items : list (string * V)) :
  ∀ (acc : gmap string V) key,
  key ∉ items.*1 →
  foldl (λ d kv, <[kv.1 := kv.2]> d) acc items !! key = acc !! key.
Proof.
  induction items as [|[k v] items IH]; intros acc key Hkey; [done|].
  simpl in *. apply not_elem_of_cons in Hkey as [Hne Hkey].
  rewrite IH by done. by rewrite lookup_insert_ne.
Qed.

Lemma foldl_insert_lookup (items : list (string * V)) :
  ∀ (acc : gmap string V) i key value,
  NoDup items.*1 → items !! i = Some (key, value) →
  foldl (λ d kv, <[kv.1 := kv.2]> d) acc items !! key = Some value.
Proof.
  induction items as [|[k v] items IH]; intros acc i key value Hnd Hi; [done|].
  simpl in *. apply NoDup_cons in Hnd as [Hk Hnd].
  destruct i as [|i]; simpl in Hi.
  - injection Hi as -> ->. rewrite foldl_insert_other by done.
    by rewrite lookup_insert_eq.
  - by eapply IH.
Qed.

(** X12. [dict_to_list] undoes [dict_from_lists]: with distinct keys and a value
    for each of them, reading the keys back gives the values in order, and
    any other key reads as [None]. *)
Theorem dict_to_list_from_lists (keys : list string) (values : list V) :
  NoDup keys →
  (length keys ≤ length values)%nat →
  dict_to_list (dict_from_lists keys values) keys
    = Some <$> take (length keys) values
  ∧ ∀ others, Forall (λ key, key ∉ keys) others →
      dict_to_list (dict_from_lists keys values) others
      = replicate (length others) None.
Proof.
  intros Hnd Hlen. unfold dict_to_list, dict_from_lists.
  assert (Hfst : (zip keys values).*1 = keys) by by apply fst_zip.
  split.
  - apply list_eq. intros i. rewrite !list_lookup_fmap.
    destruct (keys !! i) as [key|] eqn:Hkey; simpl.
    + pose proof (lookup_lt_Some _ _ _ Hkey) as Hi.
      destruct (lookup_lt_is_Some_2 values i) as [value Hvalue]; [lia|].
      rewrite lookup_take_lt, Hvalue by done. simpl. f_equal.
      eapply foldl_insert_lookup; [by rewrite Hfst|].
      rewrite lookup_zip_with, Hkey; simpl. by rewrite Hvalue.
    + apply lookup_ge_None in Hkey.
      by rewrite lookup_take_ge by lia.
  - intros others Hothers. induction Hothers as [|key others Hkey _ IH]; [done|].
    rewrite fmap_cons, IH, length_cons. simpl. f_equal.
    rewrite foldl_insert_other by by rewrite Hfst. done.
Qed.

End dict_round_trip.

Lemma dict_to_list_from_lists_witness :
  dict_to_list (dict_from_lists ["b"; "a"]%string [1; 2; 3]) ["b"; "a"]%string
  = Some <$> take 2 [1; 2; 3].
Proof.
  apply (dict_to_list_from_lists ["b"; "a"]%string [1; 2; 3]).
  - apply (bool_decide_unpack _). vm_compute. exact I.
  - simpl. lia.
Defined.

(** * Further properties of the configuration loader *)

Section configuration_more.

Context (re_compile : string → option (string → bool)).

#[local] Open Scope string_scope.

#[local] Abbreviation load_group := (load_group re_compile).
#[local] Abbreviation load_offset := (load_offset re_compile).
#[local] Abbreviation load_configuration := (load_configuration re_compile).
#[local] Abbreviation group_misses := (group_misses re_compile).

Lemma set_matching_is_Some {V} (data : gmap string V) regex value key :
  is_Some (set_matching data regex value !! key) ↔ is_Some (data !! key).
Proof. rewrite set_matching_lookup. apply fmap_is_Some. Qed.

Lemma set_matching_matched {V} (data : gmap string V) regex value key :
  regex key = true → is_Some (data !! key) →
  set_matching data regex value !! key = Some value.
Proof.
  intros Hkey [old Hold]. by rewrite set_matching_lookup, Hold, Hkey.
Qed.

Lemma placeholders_keys joint :
  is_Some (placeholders !! joint) ↔ joint ∈ ordered_joint_names_orbit.
Proof.
  split.
  - intros Hsome. destruct (decide (joint ∈ ordered_joint_names_orbit)) as [|Hnot];
      [done|].
    unfold placeholders, dict_from_lists in Hsome.
    rewrite foldl_insert_other in Hsome.
    + rewrite lookup_empty in Hsome. by destruct Hsome.
    + by rewrite fst_zip.
  - intros Hin. rewrite placeholders_lookup by done. by eexists.
Qed.

Lemma foldM_app {A B} (f : A → B → result A) l k acc :
  foldM f acc (l ++ k) = acc' ← foldM f acc l; foldM f acc' k.
Proof.
  revert acc; induction l as [|b l IH]; intros acc; simpl; [done|].
  destruct (f acc b) as [acc'|e]; simpl; [apply IH | done].
Qed.

(** The loop over the groups neither adds nor removes a joint, and leaves a
    joint alone that every group of the list misses. *)
Lemma load_groups_keys actuators groups : ∀ acc acc',
  foldM (load_group actuators) acc groups = Ok acc' →
  ∀ joint,
    (is_Some (acc'.1 !! joint) ↔ is_Some (acc.1 !! joint))
    ∧ (is_Some (acc'.2 !! joint) ↔ is_Some (acc.2 !! joint))
    ∧ (Forall (group_misses actuators joint) groups →
       acc'.1 !! joint = acc.1 !! joint ∧ acc'.2 !! joint = acc.2 !! joint).
Proof.
  induction groups as [|group groups IH]; intros acc acc'; simpl.
  - intros [= <-] joint. by repeat split.
  - intros (acc1 & Hgroup & Hrest)%bind_Ok joint.
    destruct (IH _ _ Hrest joint) as (-> & -> & Hmiss).
    apply load_group_Ok in Hgroup
      as (g & exprs & pattern & regex & stiffness & damping
          & Hg & Hexprs & Hpattern & Hre & Hs & Hd & ->); simpl in *.
    rewrite !set_matching_is_Some. split; [done|]. split; [done|].
    intros [Hhere Hlater]%Forall_cons.
    destruct (Hmiss Hlater) as [-> ->].
    pose proof (Hhere g exprs pattern regex Hg Hexprs Hpattern Hre).
    by rewrite !set_matching_unmatched.
Qed.

Lemma load_offsets_keys data expressions : ∀ offsets offsets',
  foldM (load_offset data) offsets expressions = Ok offsets' →
  ∀ joint, is_Some (offsets' !! joint) ↔ is_Some (offsets !! joint).
Proof.
  induction expressions as [|e expressions IH]; intros offsets offsets'; simpl.
  - by intros [= <-].
  - intros (offsets1 & Hone & Hrest)%bind_Ok joint.
    rewrite (IH _ _ Hrest joint).
    unfold orbit_configuration.load_offset in Hone.
    apply bind_Ok in Hone as (regex & _ & (value & _ & [= <-])%bind_Ok).
    apply set_matching_is_Some.
Qed.

(** X13. Whatever the document says, a configuration that loads has exactly the
    twelve orbit joints as the keys of its three per-joint dicts: patterns
    can overwrite entries but never add or drop a joint. *)
Theorem load_configuration_keys env_config config :
  load_configuration env_config = Ok config →
  ∀ joint,
    (is_Some (kp config !! joint) ↔ joint ∈ ordered_joint_names_orbit)
    ∧ (is_Some (kd config !! joint) ↔ joint ∈ ordered_joint_names_orbit)
    ∧ (is_Some (default_joints config !! joint)
       ↔ joint ∈ ordered_joint_names_orbit).
Proof.
  unfold orbit_configuration.load_configuration.
  intros (scene & _ & (robot & _ & (actuators & _ &
          (groups & _ & (gains & Hgains & (init_state & _ &
          (joint_pos & _ & (exprs & _ & (offsets & Hoffsets &
          (actions & _ & (ajp & _ & (scale & _ &
          (pos & _ & (height & _ & [= <-])%bind_Ok)%bind_Ok)%bind_Ok)
          %bind_Ok)%bind_Ok)%bind_Ok)%bind_Ok)%bind_Ok)%bind_Ok)%bind_Ok)
          %bind_Ok)%bind_Ok)%bind_Ok)%bind_Ok joint; simpl.
  destruct (load_groups_keys _ _ _ _ Hgains joint) as (-> & -> & _); simpl.
  rewrite (load_offsets_keys _ _ _ _ Hoffsets joint).
  by rewrite placeholders_keys.
Qed.

(** X14. Where several actuator groups match a joint, the last of them in the
    order of the document decides its stiffness and damping. *)
Theorem last_matching_group_wins env_config config actuators
    before group after g exprs pattern regex stiffness damping joint :
  load_configuration env_config = Ok config →
  actuators_of env_config = Ok actuators →
  keys actuators = Ok (before ++ group :: after)%list →
  getitem_key actuators group = Ok g →
  getitem_key g "joint_names_expr" = Ok exprs →
  getitem_pos exprs 0 = Ok (JStr pattern) →
  re_compile pattern = Some regex →
  getitem_key g "stiffness" = Ok stiffness →
  getitem_key g "damping" = Ok damping →
  joint ∈ ordered_joint_names_orbit →
  regex joint = true →
  Forall (group_misses actuators joint) after →
  kp config !! joint = Some stiffness ∧ kd config !! joint = Some damping.
Proof.
  intros Hload Hact Hkeys Hg Hexprs Hpattern Hre Hs Hd Hjoint Hmatch Hafter.
  unfold orbit_configuration.load_configuration in Hload.
  apply bind_Ok in Hload as (scene & Hscene & Hload).
  apply bind_Ok in Hload as (robot & Hrobot & Hload).
  apply bind_Ok in Hload as (actuators' & Hactuators & Hload).
  unfold actuators_of in Hact. rewrite Hscene in Hact; simpl in Hact.
  rewrite Hrobot in Hact; simpl in Hact. rewrite Hactuators in Hact.
  injection Hact as ->.
  apply bind_Ok in Hload as (groups & Hgroups & Hload).
  rewrite Hkeys in Hgroups. injection Hgroups as <-.
  apply bind_Ok in Hload as (gains & Hgains & Hload).
  assert (kp config = gains.1 ∧ kd config = gains.2) as [-> ->].
  { repeat (apply bind_Ok in Hload as (? & _ & Hload)).
    by injection Hload as <-. }
  rewrite foldM_app in Hgains.
  apply bind_Ok in Hgains as (acc1 & Hbefore & Hgains). simpl in Hgains.
  apply bind_Ok in Hgains as (acc2 & Hgroup & Hlater).
  destruct (load_groups_keys _ _ _ _ Hlater joint) as (_ & _ & Hkeep).
  destruct (Hkeep Hafter) as [-> ->].
  destruct (load_groups_keys _ _ _ _ Hbefore joint) as (Hkp & Hkd & _).
  simpl in Hkp, Hkd. rewrite placeholders_keys in Hkp, Hkd.
  apply load_group_Ok in Hgroup
    as (g' & exprs' & pattern' & regex' & stiffness' & damping'
        & Hg' & Hexprs' & Hpattern' & Hre' & Hs' & Hd' & ->); simpl.
  rewrite Hg in Hg'. injection Hg' as <-.
  rewrite Hexprs in Hexprs'. injection Hexprs' as <-.
  rewrite Hpattern in Hpattern'. injection Hpattern' as <-.
  rewrite Hre in Hre'. injection Hre' as <-.
  rewrite Hs in Hs'. injection Hs' as <-.
  rewrite Hd in Hd'. injection Hd' as <-.
  split; apply set_matching_matched; try done; [by apply Hkp | by apply Hkd].
Qed.

End configuration_more.

(** * Further properties of the observations and the command generator *)

Section generator_more.

Context (ordered_joint_names_bosdyn : list string).
Context (DEFAULT_K_Q_P DEFAULT_K_QD_P : list Q).
Context (infer : list Q → result (list Q)).

#[local] Abbreviation get_joint_positions :=
  (get_joint_positions ordered_joint_names_bosdyn).
#[local] Abbreviation get_joint_velocity :=
  (get_joint_velocity ordered_joint_names_bosdyn).
#[local] Abbreviation collect_inputs :=
  (collect_inputs ordered_joint_names_bosdyn).
#[local] Abbreviation create_proto_hold :=
  (create_proto_hold DEFAULT_K_Q_P DEFAULT_K_QD_P).
#[local] Abbreviation __call__ := (__call__ ordered_joint_names_bosdyn infer).
#[local] Abbreviation run := (run ordered_joint_names_bosdyn infer).

Lemma map2_length {A B C} (f : A → B → result C) l1 : ∀ l2 r,
  map2 f l1 l2 = Ok r → length r = Nat.min (length l1) (length l2).
Proof.
  induction l1 as [|a l1 IH]; intros [|b l2] r; simpl;
    try (by intros [= <-]).
  intros (c & _ & (r' & Hr' & [= <-])%bind_Ok)%bind_Ok.
  simpl. by rewrite (IH _ _ Hr').
Qed.

Lemma inv_rotate_length q u r : inv_rotate q u = Ok r → length r = 3%nat.
Proof. unfold inv_rotate. destruct (Qeq_bool _ _); [done|]. by intros [= <-]. Qed.

(** X15. The joint velocities, by name: entry [j] of the result is the reading
    of the joint that orbit lists at [j], found at the first position the
    robot's order gives that name. *)
Theorem get_joint_velocity_by_name state vel :
  get_joint_velocity state = Ok vel →
  length vel = 12%nat
  ∧ ∀ j name, ordered_joint_names_orbit !! j = Some name →
      ∃ i, first_index ordered_joint_names_bosdyn name = Some i
           ∧ is_Some (velocity (joint_states state) !! i)
           ∧ vel !! j = velocity (joint_states state) !! i.
Proof.
  unfold observations.get_joint_velocity.
  intros (ordering & Hordering & Hvel)%bind_Ok. split.
  - rewrite (reorder_length _ _ _ Hvel).
    by rewrite (find_ordering_length _ _ _ Hordering).
  - intros j name Hname.
    destruct (find_ordering_lookup _ _ _ _ _ Hordering Hname) as (i & Hi & Hidx).
    destruct (reorder_lookup _ _ _ _ _ Hvel Hi) as [Hj Hlt].
    exists i. split; [done|]. split; [by apply lookup_lt_is_Some_2 | done].
Qed.

(** X16. The joint positions, by name: entry [j] of the result is the reading of
    the joint that orbit lists at [j], minus the neutral offset the
    configuration holds under that name. *)
Theorem get_joint_positions_by_name state config pos :
  get_joint_positions state config = Ok pos →
  length pos = 12%nat
  ∧ ∀ j name, ordered_joint_names_orbit !! j = Some name →
      ∃ i p d, first_index ordered_joint_names_bosdyn name = Some i
               ∧ position (joint_states state) !! i = Some p
               ∧ get_as_float (default_joints config !! name) = Ok d
               ∧ pos !! j = Some (p - d)%Q.
Proof.
  unfold observations.get_joint_positions.
  intros (ordering & Hordering & (moved & Hmoved & Hpos)%bind_Ok)%bind_Ok.
  pose proof (find_ordering_length _ _ _ Hordering) as Hlen.
  pose proof (reorder_length _ _ _ Hmoved) as Hlen_moved.
  assert (Hlen_pos : length pos = 12%nat).
  { rewrite (map2_length _ _ _ _ Hpos). unfold dict_to_list.
    rewrite length_fmap, Hlen_moved, Hlen. done. }
  split; [done|]. intros j name Hname.
  destruct (lookup_lt_is_Some_2 pos j) as [t Ht].
  { rewrite Hlen_pos. by apply lookup_lt_Some in Hname. }
  destruct (map2_Ok_lookup _ _ _ _ _ _ Hpos Ht) as (p & dopt & Hp & Hd & Hsub).
  unfold dict_to_list in Hd. rewrite list_lookup_fmap, Hname in Hd.
  injection Hd as <-.
  destruct (find_ordering_lookup _ _ _ _ _ Hordering Hname) as (i & Hi & Hidx).
  destruct (reorder_lookup _ _ _ _ _ Hmoved Hi) as [Hj _].
  unfold sub in Hsub. apply bind_Ok in Hsub as (d & Hd & [= <-]).
  exists i, p, d. by rewrite <- Hj.
Qed.

(** X17. Rotating into the body frame keeps lengths: the projected gravity is a
    unit vector for every orientation the state can carry, and the body
    frame velocities have the speed of the odometry frame ones. *)
Theorem rotation_keeps_length state :
  (∀ g, get_projected_gravity state = Ok g →
        ∃ a b c, g = [a; b; c] ∧ (a * a + b * b + c * c == 1)%Q)
  ∧ (∀ v, get_base_linear_velocity state = Ok v →
          ∃ a b c, v = [a; b; c]
            ∧ (a * a + b * b + c * c ==
               x (velocity_linear (kinematic_state state))
               * x (velocity_linear (kinematic_state state))
               + y (velocity_linear (kinematic_state state))
                 * y (velocity_linear (kinematic_state state))
               + z (velocity_linear (kinematic_state state))
                 * z (velocity_linear (kinematic_state state)))%Q)
  ∧ (∀ v, get_base_angular_velocity state = Ok v →
          ∃ a b c, v = [a; b; c]
            ∧ (a * a + b * b + c * c ==
               x (velocity_angular (kinematic_state state))
               * x (velocity_angular (kinematic_state state))
               + y (velocity_angular (kinematic_state state))
                 * y (velocity_angular (kinematic_state state))
               + z (velocity_angular (kinematic_state state))
                 * z (velocity_angular (kinematic_state state)))%Q).
Proof.
  assert (Hrot : ∀ q u r, inv_rotate q u = Ok r →
            ∃ a b c, r = [a; b; c]
              ∧ (a * a + b * b + c * c == x u * x u + y u * y u + z u * z u)%Q).
  { intros [w i j k] [ux uy uz] r. unfold inv_rotate.
    destruct (Qeq_bool _ 0) eqn:Hzero; [done|]. intros [= <-].
    apply Qeq_bool_neq in Hzero.
    eexists _, _, _. split; [reflexivity|].
    unfold qnorm2 in *; simpl in *. field. exact Hzero. }
  split; [|split].
  - intros g Hg. destruct (Hrot _ _ _ Hg) as (a & b & c & -> & Hlen).
    exists a, b, c. split; [done|]. rewrite Hlen. reflexivity.
  - intros v Hv. apply (Hrot _ _ _ Hv).
  - intros v Hv. apply (Hrot _ _ _ Hv).
Qed.

(** X18. The layout of the observation: nine rotated values, then the velocity
    command as the context holds it, then twelve joint positions and twelve
    joint velocities, then the previous action: 48 values when the command
    has three entries and the action twelve. *)
Theorem collect_inputs_layout self context state config obs :
  collect_inputs self context state config = Ok obs →
  length obs
    = (33 + length (velocity_cmd context) + length (_last_action self))%nat
  ∧ take (length (velocity_cmd context)) (drop 9 obs) = velocity_cmd context
  ∧ drop (33 + length (velocity_cmd context)) obs = _last_action self.
Proof.
  unfold onnx_command_generator.collect_inputs.
  intros (lin & Hlin & (ang & Hang & (grav & Hgrav & (pos & Hpos &
          (vel & Hvel & [= <-])%bind_Ok)%bind_Ok)%bind_Ok)%bind_Ok)%bind_Ok.
  apply inv_rotate_length in Hlin, Hang, Hgrav.
  apply get_joint_positions_by_name in Hpos as [Hpos _].
  apply get_joint_velocity_by_name in Hvel as [Hvel _].
  destruct lin as [|? [|? [|? [|]]]]; try done.
  destruct ang as [|? [|? [|? [|]]]]; try done.
  destruct grav as [|? [|? [|? [|]]]]; try done.
  split; [|split].
  - rewrite !length_app; simpl; lia.
  - simpl. by rewrite drop_0, take_app_length.
  - replace (33 + length (velocity_cmd context))%nat
      with (9 + (length (velocity_cmd context) + 24))%nat by lia.
    simpl. rewrite ?drop_0, <- drop_drop, drop_app_length.
    rewrite (assoc_L (++) pos vel). rewrite drop_app_length'; [done|].
    rewrite length_app. lia.
Qed.

End generator_more.

Section command_more.

Context (ordered_joint_names_bosdyn : list string).
Context (DEFAULT_K_Q_P DEFAULT_K_QD_P : list Q).
Context (infer : list Q → result (list Q)).

#[local] Abbreviation create_proto := (create_proto ordered_joint_names_bosdyn).
#[local] Abbreviation create_proto_hold :=
  (create_proto_hold DEFAULT_K_Q_P DEFAULT_K_QD_P).
#[local] Abbreviation synthesize := (synthesize ordered_joint_names_bosdyn infer).
#[local] Abbreviation __call__ := (__call__ ordered_joint_names_bosdyn infer).
#[local] Abbreviation run := (run ordered_joint_names_bosdyn infer).

Lemma deadline_Ok context t :
  deadline context = Ok t →
  ∃ state, latest_state context = Some state
           ∧ t = (acquisition_timestamp (joint_states state) + 0.1)%Q.
Proof.
  unfold deadline. destruct (latest_state context) as [state|]; [|done].
  intros [= <-]. by exists state.
Qed.

(** X19. What every command of [__call__] looks like: one position target per
    joint of the robot's order, zero velocity and load targets of the same
    number, a deadline 100 ms after the acquisition time of the state the
    context held, 5 ms of extrapolation, and the time of the call as the
    request time. *)
Theorem call_command_shape now self context proto self' context' :
  __call__ now self context = (Ok proto, self', context') →
  ∃ state,
    latest_state context = Some state
    ∧ end_time proto = (acquisition_timestamp (joint_states state) + 0.1)%Q
    ∧ request_timestamp proto = now
    ∧ length (cmd_position proto) = length ordered_joint_names_bosdyn
    ∧ cmd_velocity proto = replicate (length ordered_joint_names_bosdyn) 0%Q
    ∧ cmd_load proto = replicate (length ordered_joint_names_bosdyn) 0%Q
    ∧ extrapolation_duration_nanos proto = 5000000
    ∧ client_name proto = "rl_example_client"%string.
Proof.
  unfold onnx_command_generator.__call__.
  destruct (latest_state context) as [state|] eqn:Hstate; [|done].
  destruct (synthesize now (cache_init self state) context state)
    as [[p output]|e] eqn:Hs; [|done].
  intros [= <- <- <-]. exists state. split; [done|].
  unfold onnx_command_generator.synthesize in Hs.
  apply bind_Ok in Hs as (obs & _ & Hs).
  apply bind_Ok in Hs as (out & _ & Hs).
  apply bind_Ok in Hs as (scaled & _ & Hs).
  apply bind_Ok in Hs as (shifted & _ & Hs).
  apply bind_Ok in Hs as (ordering & Hordering & Hs).
  apply bind_Ok in Hs as (reordered & Hreordered & Hs).
  apply bind_Ok in Hs as (p' & Hp & [= <- <-]).
  apply reorder_length in Hreordered.
  apply find_ordering_length in Hordering.
  unfold onnx_command_generator.create_proto in Hp.
  apply bind_Ok in Hp as (gains & _ & (t & Ht & [= <-])%bind_Ok); simpl.
  apply deadline_Ok in Ht as (state' & Hstate' & ->).
  rewrite Hstate in Hstate'. injection Hstate' as <-.
  rewrite Hreordered, Hordering. by repeat split.
Qed.

Lemma cache_init_cached self state p l :
  _init_pos self = Some p → _init_load self = Some l →
  cache_init self state = self.
Proof. intros Hp _. unfold cache_init. by rewrite Hp. Qed.

Lemma call_keeps_init now self context p l :
  _init_pos self = Some p → _init_load self = Some l →
  _init_pos (__call__ now self context).1.2 = Some p
  ∧ _init_load (__call__ now self context).1.2 = Some l.
Proof.
  intros Hp Hl. unfold onnx_command_generator.__call__.
  destruct (latest_state context) as [state|]; [|done].
  rewrite (cache_init_cached self state p l Hp Hl).
  by destruct (synthesize now self context state) as [[proto output]|e].
Qed.

Lemma run_keeps_init ps : ∀ self context p l,
  _init_pos self = Some p → _init_load self = Some l →
  _init_pos (run ps self context).1.2 = Some p
  ∧ _init_load (run ps self context).1.2 = Some l.
Proof.
  induction ps as [|pub ps IH]; intros self context p l Hp Hl; [done|].
  simpl.
  destruct (call_keeps_init (pub_now pub) self (publish pub context) p l Hp Hl)
    as [Hp1 Hl1].
  destruct (__call__ (pub_now pub) self (publish pub context))
    as [[r self1] context1].
  specialize (IH self1 context1 p l Hp1 Hl1).
  by destruct (run ps self1 context1) as [[rs self2] context2].
Qed.

(** X20. The pose for hold mode is taken once: the first call that finds a state
    in the context caches its joint positions and loads, whether or not the
    call then succeeds, and no later call replaces them. *)
Theorem init_pose_cached_once config verbose pub ps state :
  pub_state pub = Some state →
  let '(_, self', _) :=
    run (pub :: ps) (__init__ config verbose) new_context in
  _init_pos self' = Some (position (joint_states state))
  ∧ _init_load self' = Some (load (joint_states state)).
Proof.
  intros Hstate. simpl.
  destruct (__call__ (pub_now pub) (__init__ config verbose)
              (publish pub new_context)) as [[r self1] context1] eqn:Hcall.
  assert (_init_pos self1 = Some (position (joint_states state))
          ∧ _init_load self1 = Some (load (joint_states state))) as [Hp Hl].
  { unfold onnx_command_generator.__call__ in Hcall. simpl in Hcall.
    rewrite Hstate in Hcall.
    destruct (synthesize (pub_now pub)
                (cache_init (__init__ config verbose) state)
                (publish pub new_context) state) as [[proto output]|e];
      by injection Hcall as <- <- <-. }
  pose proof (run_keeps_init ps self1 context1 _ _ Hp Hl) as Hrun.
  by destruct (run ps self1 context1) as [[rs self2] context2].
Qed.

Lemma range_lookup n j : (j < n)%nat → range n !! j = Some (Z.of_nat j).
Proof.
  intros Hj. unfold range. by rewrite list_lookup_fmap, lookup_seq_lt.
Qed.

Lemma cached_Ok init (j : nat) a :
  cached init (Z.of_nat j) = Ok a → ∃ l, init = Some l ∧ l !! j = Some a.
Proof.
  destruct init as [l|]; simpl; [|done].
  rewrite getitem_of_nat. destruct (l !! j) as [a'|] eqn:Hj; [|done].
  intros [= <-]. by exists l.
Qed.

(** X21. A hold command replays the cached pose: its targets are the first
    twelve cached joint positions and loads, with zero velocities.  Before
    any call has cached a pose there is nothing to replay, and
    [create_proto_hold] raises [TypeError]. *)
Theorem create_proto_hold_replays_pose now self context :
  (_init_pos self = None → create_proto_hold now self context = Raise TypeError)
  ∧ ∀ c, create_proto_hold now self context = Ok c →
      ∃ pos loads,
        _init_pos self = Some pos ∧ _init_load self = Some loads
        ∧ (12 ≤ length pos)%nat ∧ (12 ≤ length loads)%nat
        ∧ cmd_position c = take 12 pos
        ∧ cmd_load c = take 12 loads
        ∧ cmd_velocity c = replicate 12 0%Q
        ∧ user_command_key c = _count self.
Proof.
  split.
  - intros Hnone. unfold onnx_command_generator.create_proto_hold.
    by rewrite Hnone.
  - intros c. unfold onnx_command_generator.create_proto_hold.
    intros (cmds & Hcmds & (t & _ & [= <-])%bind_Ok)%bind_Ok; simpl.
    apply mapM_Ok in Hcmds.
    pose proof (Forall2_length _ _ _ Hcmds) as Hlen.
    unfold range in Hlen. rewrite length_fmap, length_seq in Hlen.
    assert (Hentry : ∀ j, (j < 12)%nat →
              ∃ pos loads p l,
                _init_pos self = Some pos ∧ _init_load self = Some loads
                ∧ pos !! j = Some p ∧ loads !! j = Some l
                ∧ cmds !! j = Some (p, l)).
    { intros j Hj.
      destruct (Forall2_lookup_l _ _ _ _ _ Hcmds (range_lookup 12 j Hj))
        as ([p l] & Hpl & Hget).
      apply bind_Ok in Hget as (p' & Hp & (l' & Hl & [= <- <-])%bind_Ok).
      apply cached_Ok in Hp as (pos & Hpos & Hp).
      apply cached_Ok in Hl as (loads & Hloads & Hl).
      by exists pos, loads, p', l'. }
    destruct (Hentry 11%nat) as (pos & loads & p & l & Hpos & Hloads & Hp & Hl & _);
      [lia|].
    apply lookup_lt_Some in Hp, Hl.
    exists pos, loads. split; [done|]. split; [done|].
    split; [lia|]. split; [lia|].
    split; [|split; [|done]].
    + apply list_eq. intros j. rewrite list_lookup_fmap.
      destruct (decide (j < 12)%nat) as [Hj|Hj].
      * destruct (Hentry j Hj) as (pos' & loads' & p' & l' & Hpos' & _ & Hp' & _ & ->).
        rewrite Hpos in Hpos'. injection Hpos' as <-.
        by rewrite lookup_take_lt, Hp' by done.
      * rewrite lookup_take_ge by lia.
        by rewrite (lookup_ge_None_2 cmds) by lia.
    + apply list_eq. intros j. rewrite list_lookup_fmap.
      destruct (decide (j < 12)%nat) as [Hj|Hj].
      * destruct (Hentry j Hj) as (pos' & loads' & p' & l' & _ & Hloads' & _ & Hl' & ->).
        rewrite Hloads in Hloads'. injection Hloads' as <-.
        by rewrite lookup_take_lt, Hl' by done.
      * rewrite lookup_take_ge by lia.
        by rewrite (lookup_ge_None_2 cmds) by lia.
Qed.

End command_more.

(** * Properties of the command stream *)

Section stream_facts.

Import spot.

Context (ordered_joint_names_bosdyn : list string).
Context (infer : list Q → result (list Q)).

#[local] Abbreviation _command_stream_loop :=
  (_command_stream_loop ordered_joint_names_bosdyn infer).

(** The timing policy, run with one unit of fuel more than its factor,
    returns, and answers [True] exactly when its first [factor] waits all
    see the signal. *)
Lemma timing_policy_result timing (sig : event_divider.oracle) :
  ∃ b trace,
    event_divider.__call__ (S (Z.to_nat (event_divider._factor timing)))
      timing sig = Some (b, trace)
    ∧ (b = true ↔
       ∀ k, (k < Z.to_nat (event_divider._factor timing))%nat → sig k = true).
Proof.
  unfold event_divider.__call__.
  rewrite (loop_spec (Z.to_nat (event_divider._factor timing)))
    by (rewrite ?Z.sub_0_r; lia).
  destruct (event_divider.first_timeout sig 0
              (Z.to_nat (event_divider._factor timing))) as [k|] eqn:Hk.
  - apply first_timeout_Some in Hk as (Hk & Hs & _).
    eexists false, _. split; [done|]. split; [done|].
    intros H. rewrite H in Hs; [done | lia].
  - eexists true, _. split; [done|]. split; [|done].
    intros _ k Hlt. eapply first_timeout_None in Hk; [done | lia].
Qed.

(** What a run of the loop adds to a stream. *)
Lemma command_stream_loop_adds timing pulls : ∀ resumed s,
  ∃ more,
    yielded (_command_stream_loop timing pulls resumed s) = yielded s ++ more
    ∧ user_command_key <$> more
      = seqZ (_count (generator s)) (Z.of_nat (length more))
    ∧ (length more ≤ length pulls)%nat
    ∧ (∀ j p, (j < length more)%nat → pulls !! j = Some p →
         stopping p = false
         ∧ ∀ k, (k < Z.to_nat (event_divider._factor timing))%nat →
             signals p k = true)
    ∧ (_started_streaming (_command_stream_loop timing pulls resumed s) = true →
       _started_streaming s = true ∨ (resumed = true ∧ pulls ≠ [])
       ∨ (2 ≤ length pulls)%nat ∧ more ≠ [])
    ∧ (state_of (_command_stream_loop timing pulls resumed s) = Diverged →
       state_of s = Diverged)
    ∧ (state_of (_command_stream_loop timing pulls resumed s) = TimedOut →
       (pulls = [] ∧ state_of s = TimedOut)
       ∨ ∃ p k, pulls !! length more = Some p
                ∧ (k < Z.to_nat (event_divider._factor timing))%nat
                ∧ signals p k = false).
Proof.
  induction pulls as [|p pulls IH]; intros resumed s.
  - exists []. simpl. rewrite app_nil_r.
    repeat split; try done; try lia; auto.
  - simpl. destruct (stopping p) eqn:Hstop.
    { exists []. simpl. rewrite app_nil_r.
      repeat split; try done; try lia.
      destruct resumed; [intros _; right; left; done | by left]. }
    destruct (timing_policy_result timing (signals p)) as (b & trace & -> & Hb).
    destruct b.
    2:{ exists []. simpl. rewrite app_nil_r.
        repeat split; try done; try lia.
        - destruct resumed; [intros _; right; left; done | by left].
        - intros _. right.
          destruct (event_divider.first_timeout (signals p) 0
                      (Z.to_nat (event_divider._factor timing))) as [k|] eqn:Hk.
          + apply first_timeout_Some in Hk as (Hk & Hs & _).
            exists p, k. split; [done|]. split; [lia | done].
          + assert (false = true); [|done]. apply Hb. intros k Hlt.
            eapply first_timeout_None in Hk; [done | lia]. }
    destruct (__call__ ordered_joint_names_bosdyn infer (pub_now (pub p))
                (generator s) (publish (pub p) (context s)))
      as [[[proto|e] generator'] context'] eqn:Hcall.
    2:{ exists []. simpl. rewrite app_nil_r.
        repeat split; try done; try lia.
        destruct resumed; [intros _; right; left; done | by left]. }
    apply call_Ok in Hcall as (Hkey & Hcount & _).
    destruct (IH true
                {| yielded := yielded s ++ [proto]; state_of := Suspended;
                   generator := generator'; context := context';
                   _started_streaming :=
                     if resumed then true else _started_streaming s |})
      as (more & -> & Hkeys & Hlen & Hsig & Hstarted & Hdiv & Htimeout).
    simpl in *. exists (proto :: more).
    split; [by rewrite <- (assoc_L (++))|].
    split.
    { rewrite fmap_cons, length_cons, Nat2Z.inj_succ, seqZ_cons by lia.
      rewrite Z.pred_succ, Hkeys, Hkey, Hcount.
      by replace (Z.succ (_count (generator s))) with (_count (generator s) + 1)
        by lia. }
    split; [simpl; lia|].
    split.
    { intros [|j] p' Hj Hp'; simpl in *.
      - injection Hp' as <-. split; [done|]. by apply Hb.
      - apply (Hsig j p'); [lia | done]. }
    split.
    { intros Hs. destruct (Hstarted Hs) as [Hold|[[_ Hne]|[Hlen2 Hne]]].
      - destruct resumed; [right; left; done | by left].
      - right. right. split; [|done]. destruct pulls; [done | simpl; lia].
      - right. right. split; [lia | done]. }
    split; [by intros ?%Hdiv|].
    intros Hs. destruct (Htimeout Hs) as [[_ ?]|(p' & k & Hp' & Hk & Hsk)];
      [done|]. right. by exists p', k.
Qed.

(** X23. The command stream, from its start.  The commands handed to the
    transport carry consecutive keys from the generator's cycle index on,
    and each was preceded by a full round of the timing policy.
    [_started_streaming], on which the activation of joint control waits, is
    only set once a command has been handed over and the transport has come
    back for the next.  The stream never hangs in the timing policy, and
    when it ends on a timeout, a wait of the round after the last command
    missed its signal. *)
Theorem command_stream_loop_spec timing pulls generator0 context0 :
  let s := _command_stream_loop timing pulls false (start generator0 context0) in
  user_command_key <$> yielded s
    = seqZ (_count generator0) (Z.of_nat (length (yielded s)))
  ∧ (length (yielded s) ≤ length pulls)%nat
  ∧ (∀ j p, (j < length (yielded s))%nat → pulls !! j = Some p →
       stopping p = false
       ∧ ∀ k, (k < Z.to_nat (event_divider._factor timing))%nat →
           signals p k = true)
  ∧ (_started_streaming s = true →
     yielded s ≠ [] ∧ (2 ≤ length pulls)%nat)
  ∧ state_of s ≠ Diverged
  ∧ (state_of s = TimedOut →
     ∃ p k, pulls !! length (yielded s) = Some p
            ∧ (k < Z.to_nat (event_divider._factor timing))%nat
            ∧ signals p k = false).
Proof.
  destruct (command_stream_loop_adds timing pulls false
              (start generator0 context0))
    as (more & Hy & Hkeys & Hlen & Hsig & Hstarted & Hdiv & Htimeout).
  simpl in *. rewrite Hy.
  split; [done|]. split; [done|]. split; [done|].
  split.
  { intros Hs. destruct (Hstarted Hs) as [?|[[? _]|[? ?]]]; done. }
  split; [by intros ?%Hdiv|].
  intros Hs. destruct (Htimeout Hs) as [[_ ?]|?]; done.
Qed.

End stream_facts.

(** * Properties of the gamepad configuration loader *)

Section gamepad_loader_facts.

Import gamepad.

#[local] Open Scope string_scope.

Lemma getitem_key_Raise v key e :
  getitem_key v key = Raise e → e = KeyError ∨ e = TypeError.
Proof.
  destruct v as [| | | | |items]; simpl; try (intros [= <-]; by right).
  destruct (assoc key items); [done|]. intros [= <-]. by left.
Qed.

Lemma getitem2_Raise v key1 key2 e :
  getitem2 v key1 key2 = Raise e → e = KeyError ∨ e = TypeError.
Proof.
  unfold getitem2. destruct (getitem_key v key1) as [w|e'] eqn:Hw; simpl.
  - apply getitem_key_Raise.
  - intros [= <-]. by eapply getitem_key_Raise.
Qed.

(** X8. What [load_gamepad_configuration] makes of a document.  All three axes
    share the one [deadband]; the sideways and the turning axis get the same
    bounds in both directions, from one entry each, and only the
    forward/backward axis has separate ["forward"] and ["backward"] bounds.
    A document it cannot read makes it raise [KeyError] or [TypeError],
    nothing else. *)
Theorem load_gamepad_configuration_result config_file :
  match load_gamepad_configuration config_file with
  | Ok config =>
      let fb := loaded_x_axis_config config in
      let lateral := loaded_y_axis_config config in
      let yaw := loaded_yaw_axis_config config in
      getitem_key config_file "deadband" = Ok (loaded_deadband fb)
      ∧ loaded_deadband lateral = loaded_deadband fb
      ∧ loaded_deadband yaw = loaded_deadband fb
      ∧ loaded_min_reverse_dir lateral = loaded_min_forward_dir lateral
      ∧ loaded_max_reverse_dir lateral = loaded_max_forward_dir lateral
      ∧ loaded_min_reverse_dir yaw = loaded_min_forward_dir yaw
      ∧ loaded_max_reverse_dir yaw = loaded_max_forward_dir yaw
      ∧ getitem2 config_file "forward" "min_velocity"
        = Ok (loaded_min_forward_dir fb)
      ∧ getitem2 config_file "forward" "max_velocity"
        = Ok (loaded_max_forward_dir fb)
      ∧ getitem2 config_file "backward" "min_velocity"
        = Ok (loaded_min_reverse_dir fb)
      ∧ getitem2 config_file "backward" "max_velocity"
        = Ok (loaded_max_reverse_dir fb)
      ∧ getitem2 config_file "median_filter" "window_size"
        = Ok (loaded_median_filter_window config)
  | Raise e => e = KeyError ∨ e = TypeError
  end.
Proof.
  unfold load_gamepad_configuration.
  repeat match goal with
  | |- context [Py.getitem_key ?v ?k ≫= _] =>
      let H := fresh "H" in
      destruct (Py.getitem_key v k) eqn:H; simpl;
        [|by eapply getitem_key_Raise]
  | |- context [getitem2 ?v ?k1 ?k2 ≫= _] =>
      let H := fresh "H" in
      destruct (getitem2 v k1 k2) eqn:H; simpl;
        [|by eapply getitem2_Raise]
  end.
  repeat split; try done.
  unfold getitem2. match goal with
  | H : Py.getitem_key config_file "median_filter" = Ok _ |- _ => by rewrite H
  end.
Qed.

End gamepad_loader_facts.

(** * The sample session, continued *)

Section sample_runs_more.

Import sample.

#[local] Open Scope string_scope.

Lemma load_configuration_keys_witness :
  (is_Some (kp (loaded complete_config) !! "hr_kn")
   ↔ "hr_kn" ∈ ordered_joint_names_orbit)
  ∧ (is_Some (kd (loaded complete_config) !! "hr_kn")
     ↔ "hr_kn" ∈ ordered_joint_names_orbit)
  ∧ (is_Some (default_joints (loaded complete_config) !! "hr_kn")
     ↔ "hr_kn" ∈ ordered_joint_names_orbit).
Proof.
  apply (load_configuration_keys literal_re complete_config). reflexivity.
Defined.

Lemma last_matching_group_wins_witness :
  kp (loaded override_config) !! "fl_hy" = Some (JNum 80)
  ∧ kd (loaded override_config) !! "fl_hy" = Some (JNum 2).
Proof.
  apply (last_matching_group_wins literal_re override_config
           (loaded override_config)
           (JObj [ ("front", group "f" 60 1.5);
                   ("front_left", group "fl_" 80 2);
                   ("hind", group "h" 50 1.5) ])
           ["front"] "front_left" ["hind"] (group "fl_" 80 2)
           (JArr [JStr "fl_"]) "fl_" (String.prefix "fl_")
           (JNum 80) (JNum 2) "fl_hy"); try reflexivity.
  - apply (bool_decide_unpack _). vm_compute. exact I.
  - constructor; [|constructor].
    intros g exprs pattern regex Hg Hexprs Hpattern Hre.
    vm_compute in Hg. injection Hg as <-.
    injection Hexprs as <-. injection Hpattern as <-.
    unfold literal_re in Hre. injection Hre as <-. reflexivity.
Defined.

Lemma get_joint_velocity_by_name_witness :
  ∃ vel,
    get_joint_velocity ordered_joint_names_bosdyn resting = Ok vel
    ∧ length vel = 12%nat
    ∧ ∀ j name, ordered_joint_names_orbit !! j = Some name →
        ∃ i, first_index ordered_joint_names_bosdyn name = Some i
             ∧ is_Some (velocity (joint_states resting) !! i)
             ∧ vel !! j = velocity (joint_states resting) !! i.
Proof.
  destruct (get_joint_velocity ordered_joint_names_bosdyn resting)
    as [vel|e] eqn:H; [|vm_compute in H; discriminate].
  exists vel. split; [done|].
  exact (get_joint_velocity_by_name ordered_joint_names_bosdyn resting vel H).
Defined.

Lemma get_joint_positions_by_name_witness :
  ∃ pos,
    get_joint_positions ordered_joint_names_bosdyn resting
      (loaded complete_config) = Ok pos
    ∧ length pos = 12%nat
    ∧ ∀ j name, ordered_joint_names_orbit !! j = Some name →
        ∃ i p d, first_index ordered_joint_names_bosdyn name = Some i
                 ∧ position (joint_states resting) !! i = Some p
                 ∧ get_as_float (default_joints (loaded complete_config) !! name)
                   = Ok d
                 ∧ pos !! j = Some (p - d)%Q.
Proof.
  destruct (get_joint_positions ordered_joint_names_bosdyn resting
              (loaded complete_config))
    as [pos|e] eqn:H; [|vm_compute in H; discriminate].
  exists pos. split; [done|].
  exact (get_joint_positions_by_name ordered_joint_names_bosdyn resting
           (loaded complete_config) pos H).
Defined.

Lemma collect_inputs_layout_witness :
  ∃ obs,
    collect_inputs ordered_joint_names_bosdyn
      (__init__ (loaded complete_config) false)
      (publish (at_rest 1) new_context) resting (loaded complete_config)
    = Ok obs
    ∧ length obs = 48%nat
    ∧ take 3 (drop 9 obs) = [0; 0; 0]%Q
    ∧ drop 36 obs = replicate 12 0%Q.
Proof.
  destruct (collect_inputs ordered_joint_names_bosdyn
              (__init__ (loaded complete_config) false)
              (publish (at_rest 1) new_context) resting (loaded complete_config))
    as [obs|e] eqn:H; [|vm_compute in H; discriminate].
  exists obs. split; [done|].
  exact (collect_inputs_layout ordered_joint_names_bosdyn _ _ _ _ obs H).
Defined.

Lemma call_command_shape_witness :
  ∃ proto,
    (__call__ ordered_joint_names_bosdyn infer 7
       (__init__ (loaded complete_config) false)
       (publish (at_rest 7) new_context)).1.1 = Ok proto
    ∧ end_time proto = 100.1%Q
    ∧ request_timestamp proto = 7%Q
    ∧ length (cmd_position proto) = 12%nat.
Proof.
  destruct (__call__ ordered_joint_names_bosdyn infer 7
              (__init__ (loaded complete_config) false)
              (publish (at_rest 7) new_context))
    as [[[proto|e] self'] context'] eqn:H; [|vm_compute in H; discriminate].
  exists proto. split; [done|].
  destruct (call_command_shape ordered_joint_names_bosdyn infer _ _ _ _ _ _ H)
    as (state & Hstate & Hend & Hreq & Hlen & _).
  injection Hstate as <-. by repeat split.
Defined.

Lemma init_pose_cached_once_witness :
  let '(_, self', _) :=
    run ordered_joint_names_bosdyn infer
      [at_rest 1;
       {| pub_now := 2; pub_state := None; pub_velocity_cmd := [] |}]
      (__init__ (loaded front_only_config) false) new_context in
  _init_pos self' = Some (position (joint_states resting))
  ∧ _init_load self' = Some (load (joint_states resting)).
Proof.
  apply (init_pose_cached_once ordered_joint_names_bosdyn infer
           (loaded front_only_config) false (at_rest 1)
           [{| pub_now := 2; pub_state := None; pub_velocity_cmd := [] |}]
           resting).
  reflexivity.
Defined.

(** A stream of four [next()] calls with a divider of factor 2: two commands
    go out, the third round misses its second signal, and the stream ends
    there with the activation flag set. *)
Example command_stream_sample :
  let all := {| spot.stopping := false; spot.signals := λ _, true;
                spot.pub := at_rest 1 |} in
  let late := {| spot.stopping := false; spot.signals := λ k, (k =? 0)%nat;
                 spot.pub := at_rest 2 |} in
  let s := spot._command_stream_loop ordered_joint_names_bosdyn infer
             {| event_divider._factor := 2 |} [all; all; late; all] false
             (spot.start (__init__ (loaded complete_config) false) new_context) in
  user_command_key <$> spot.yielded s = [1; 2]
  ∧ spot.state_of s = spot.TimedOut
  ∧ spot._started_streaming s = true
  ∧ count (spot.context s) = 2.
Proof. vm_compute. by repeat split. Qed.

End sample_runs_more.

(** * A call that raises *)

Section call_failure.

Context (ordered_joint_names_bosdyn : list string).
Context (infer : list Q → result (list Q)).

#[local] Abbreviation __call__ := (__call__ ordered_joint_names_bosdyn infer).

(** X22. A call of the generator that raises has changed nothing but, at most,
    the pose cache: the context, both counters, the previous action and the
    configuration are as before, and the cache is either untouched or was
    empty and now holds the pose of the state in the context.  Without a
    state in the context the call raises [AttributeError] and changes
    nothing at all. *)
Theorem call_raise_leaves_state now self context e self' context' :
  __call__ now self context = (Raise e, self', context') →
  context' = context
  ∧ _count self' = _count self
  ∧ _last_action self' = _last_action self
  ∧ _config self' = _config self
  ∧ (latest_state context = None → e = AttributeError ∧ self' = self)
  ∧ (self' = self
     ∨ ∃ state, latest_state context = Some state
                ∧ _init_pos self = None
                ∧ _init_pos self' = Some (position (joint_states state))
                ∧ _init_load self' = Some (load (joint_states state))).
Proof.
  unfold onnx_command_generator.__call__.
  destruct (latest_state context) as [state|] eqn:Hstate.
  - destruct (synthesize ordered_joint_names_bosdyn infer now
                (cache_init self state) context state)
      as [[proto output]|e'] eqn:Hs; [done|].
    intros [= <- <- <-]. unfold cache_init.
    destruct (_init_pos self) eqn:Hinit; simpl.
    + repeat split; try done. by left.
    + repeat split; try done. right. by exists state.
  - intros [= <- <- <-]. repeat split; try done. by left.
Qed.

End call_failure.

Lemma call_raise_leaves_state_witness :
  ∃ self' context',
    __call__ sample.ordered_joint_names_bosdyn sample.infer 1
      (__init__ (sample.loaded sample.front_only_config) false)
      (publish (sample.at_rest 1) new_context)
    = (Raise TypeError, self', context')
    ∧ context' = publish (sample.at_rest 1) new_context
    ∧ _count self' = 1
    ∧ _last_action self' = replicate 12 0%Q.
Proof.
  destruct (__call__ sample.ordered_joint_names_bosdyn sample.infer 1
              (__init__ (sample.loaded sample.front_only_config) false)
              (publish (sample.at_rest 1) new_context))
    as [[[proto|e] self'] context'] eqn:H; [vm_compute in H; discriminate|].
  assert (e = TypeError) as -> by (vm_compute in H; congruence).
  exists self', context'. split; [done|].
  destruct (call_raise_leaves_state sample.ordered_joint_names_bosdyn
              sample.infer _ _ _ _ _ _ H) as (-> & -> & -> & _).
  by repeat split.
Defined.
